(** * Screenshot index and search: the description store, ingestion and the
      ranking-reply parser

    A shallow embedding of [index_screenshots.py], [search_screenshots.py] and
    the [/search] and [/upload] handlers of [app.py].

    Modelling conventions.
    - A Python [str] is a [string] whose characters are read as the code
      points U+0000..U+00FF, with Python's own character classes on that
      range ([str.isspace], [str.isdigit], and the decimal digits [int]
      accepts).
    - A Python [int] is a [Z].
    - A [Dict[str, str]] is a [gmap string string]; only the prompt text
      depends on the enumeration order of a dict, and nothing below depends
      on the prompt text.
    - Exceptions are explicit: fallible code returns [res A].
    - The language-model client, the vision client and the [json] library
      are the environment: they are taken as parameters (the [client]
      argument, the [env] record).
    - Files are a finite map from paths to text; reading an existing file
      and writing any file succeed. *)

From Stdlib Require Import ZArith Ascii String Lia.
From stdpp Require Import gmap strings list fin_maps pretty.

Local Open Scope Z_scope.

(** ** Python values and exceptions *)

Inductive exn : Type :=
  | ValueError
  | IndexError
  | KeyError
  | APIError.

Inductive res (A : Type) : Type :=
  | Ret (a : A)
  | Raise (e : exn).

Arguments Ret {A} a.
Arguments Raise {A} e.

Definition bind {A B : Type} (k : A -> res B) (m : res A) : res B :=
  match m with
  | Ret a => k a
  | Raise e => Raise e
  end.

#[global] Instance res_ret : MRet res := @Ret.
#[global] Instance res_bind : MBind res := @bind.

(** ** Strings *)

Module Str.

Definition code (c : ascii) : N := N_of_ascii c.

(** [str.isspace] on U+0000..U+00FF. *)
Definition isspace (c : ascii) : bool :=
  let n := code c in
  ((9 <=? n) && (n <=? 13) || (28 <=? n) && (n <=? 32)
   || (n =? 133) || (n =? 160))%N.

(** The characters [int] reads as decimal digits. *)
Definition isdecimal (c : ascii) : bool :=
  let n := code c in ((48 <=? n) && (n <=? 57))%N.

(** [str.isdigit] on U+0000..U+00FF: the decimal digits and the
    superscripts two, three and one (U+00B2, U+00B3, U+00B9). *)
Definition isdigit (c : ascii) : bool :=
  let n := code c in
  (isdecimal c || (n =? 178) || (n =? 179) || (n =? 185))%N.

Fixpoint any (p : ascii -> bool) (s : string) : bool :=
  match s with
  | EmptyString => false
  | String c s' => p c || any p s'
  end.

(** [''.join(filter(p, s))] *)
Fixpoint filter (p : ascii -> bool) (s : string) : string :=
  match s with
  | EmptyString => EmptyString
  | String c s' => if p c then String c (filter p s') else filter p s'
  end.

Fixpoint lstrip (s : string) : string :=
  match s with
  | EmptyString => EmptyString
  | String c s' => if isspace c then lstrip s' else s
  end.

Fixpoint rstrip (s : string) : string :=
  match s with
  | EmptyString => EmptyString
  | String c s' =>
      match rstrip s' with
      | EmptyString => if isspace c then EmptyString else String c EmptyString
      | r => String c r
      end
  end.

(** [s.strip()] *)
Definition strip (s : string) : string := rstrip (lstrip s).

(** [s.startswith(p)], returning what follows the prefix. *)
Fixpoint after_prefix (p s : string) : option string :=
  match p, s with
  | EmptyString, _ => Some s
  | String a p', String b s' =>
      if Ascii.eqb a b then after_prefix p' s' else None
  | String _ _, EmptyString => None
  end.

(** [s.partition(sep)] when [sep] occurs: the text before and the text
    after its first occurrence. *)
Fixpoint partition (sep s : string) : option (string * string) :=
  match after_prefix sep s with
  | Some rest => Some (EmptyString, rest)
  | None =>
      match s with
      | EmptyString => None
      | String c s' =>
          match partition sep s' with
          | Some (a, b) => Some (String c a, b)
          | None => None
          end
      end
  end.

(** [sub in s] *)
Definition contains (sub s : string) : bool :=
  match partition sub s with Some _ => true | None => false end.

(** [s.split(sep, 1)] *)
Definition split1 (sep s : string) : list string :=
  match partition sep s with
  | Some (a, b) => [a; b]
  | None => [s]
  end.

(** [s.split(c)] for a one-character separator. *)
Fixpoint split (c : ascii) (s : string) : list string :=
  match s with
  | EmptyString => [EmptyString]
  | String a s' =>
      if Ascii.eqb a c then EmptyString :: split c s'
      else match split c s' with
           | h :: t => String a h :: t
           | [] => [String a EmptyString]
           end
  end.

(** [s.lower()] on U+0000..U+00FF: the letters A..Z and the capital
    letters of U+00C0..U+00DE (all of that range but the sign U+00D7) move
    up by 32. *)
Definition lower_char (c : ascii) : ascii :=
  let n := code c in
  if ((65 <=? n) && (n <=? 90)
      || (192 <=? n) && (n <=? 222) && negb (n =? 215))%N
  then ascii_of_N (n + 32) else c.

Fixpoint lower (s : string) : string :=
  match s with
  | EmptyString => EmptyString
  | String c s' => String (lower_char c) (lower s')
  end.

(** [int(s)] for [s] made of [isdigit] characters only (what the filter
    lets through): [ValueError] on the empty string and on a digit that is
    not decimal. (Recent interpreters also raise [ValueError] on a digit
    string of more than 4300 characters; that cap is not modelled.) *)
Fixpoint int_from (acc : Z) (s : string) : res Z :=
  match s with
  | EmptyString => Ret acc
  | String c s' =>
      if isdecimal c
      then int_from (10 * acc + (Z.of_N (code c) - 48)) s'
      else Raise ValueError
  end.

Definition int (s : string) : res Z :=
  match s with
  | EmptyString => Raise ValueError
  | _ => int_from 0 s
  end.

End Str.

(** ** Lists and dicts *)

Definition colon : ascii := ":"%char.
Definition newline : ascii := "010"%char.

(** [l[i]], negative indices counting from the end. *)
Definition getitem {A : Type} (l : list A) (i : Z) : res A :=
  let j := if i <? 0 then Z.of_nat (length l) + i else i in
  if j <? 0 then Raise IndexError
  else match l !! Z.to_nat j with
       | Some x => Ret x
       | None => Raise IndexError
       end.

(** [l[:k]]: a negative [k] drops the last [-k] items. *)
Definition slice_to {A : Type} (l : list A) (k : Z) : list A :=
  if 0 <=? k then take (Z.to_nat k) l
  else take (length l - Z.to_nat (- k))%nat l.

(** [d[k]] *)
Definition dict_getitem (d : gmap string string) (k : string) : res string :=
  match d !! k with
  | Some v => Ret v
  | None => Raise KeyError
  end.

(** [k in d] *)
Definition dict_in (k : string) (d : gmap string string) : bool :=
  bool_decide (is_Some (d !! k)).

(** [not d] *)
Definition dict_empty (d : gmap string string) : bool :=
  bool_decide (d = ∅).

(** ** The environment *)

(** The [json] library and the two model endpoints.
    - [json_dump d] is the text [json.dump(d, f, indent=2)] writes;
    - [json_load text] is the value of [json.load], [None] when it raises
      [JSONDecodeError];
    - [vision n image_path] is the outcome of the vision request made by the
      [n]-th call of [get_image_description] (for the file [image_path]):
      the reply text, or an exception from reading the file or from the
      client;
    - [path_name p] is [Path(p).name] and [path_suffix p] is
      [Path(p).suffix];
    - [secure_filename] is werkzeug's function of that name. *)
Record env : Type := Env {
  json_dump : gmap string string -> string;
  json_load : string -> option (gmap string string);
  vision : nat -> string -> res string;
  path_name : string -> string;
  path_suffix : string -> string;
  secure_filename : string -> string
}.

(** The state outside the program: text files by path, the folders that
    exist with the image paths the extension scan finds in each, and the
    log of [get_image_description] calls (oldest first). *)
Record world : Type := World {
  files : gmap string string;
  folders : gmap string (list string);
  calls : list string
}.

(** [if s:] for a [str]. *)
Definition truthy (s : string) : bool :=
  match s with
  | EmptyString => false
  | String _ _ => true
  end.

(** ** search_screenshots.py *)

Module Search.

(** A ranked result: (identifier, description, confidence). *)
Definition hit : Type := string * string * Z.

(** The candidate test of the parsing loop:
    [':' in line and any(char.isdigit() for char in line)]. *)
Definition candidate (line : string) : bool :=
  Str.contains ":" line && Str.any Str.isdigit line.

(** The body of the [try] block for one line; [results] is the list built
    so far, the value is the list after the block. *)
Definition line_body (descriptions : gmap string string) (line : string)
    (results : list hit) : res (list hit) :=
  let parts := Str.split colon line in
  if (2 <=? length parts)%nat then
    p0 ← getitem parts 0;
    p1 ← getitem parts 1;
    let filename_part := Str.strip p0 in
    let score_part := Str.strip p1 in
    filename ← (if Str.contains ". " filename_part
                 then getitem (Str.split1 ". " filename_part) (-1)
                 else Ret filename_part);
    score ← Str.int (Str.filter Str.isdigit score_part);
    if dict_in filename descriptions then
      d ← dict_getitem descriptions filename;
      Ret (results ++ [(filename, d, score)])
    else Ret results
  else Ret results.

(** The [for line in lines] loop with its
    [try: ... except (ValueError, IndexError): continue]. *)
Fixpoint parse_lines (descriptions : gmap string string) (lines : list string)
    (results : list hit) : res (list hit) :=
  match lines with
  | [] => Ret results
  | line :: rest =>
      if candidate line then
        match line_body descriptions line results with
        | Ret results' => parse_lines descriptions rest results'
        | Raise ValueError | Raise IndexError =>
            parse_lines descriptions rest results
        | Raise e => Raise e
        end
      else parse_lines descriptions rest results
  end.

(** What follows the model call inside the outer [try]. *)
Definition parse_response (descriptions : gmap string string)
    (response_text : string) (top_k : Z) : res (list hit) :=
  let lines := Str.split newline (Str.strip response_text) in
  results ← parse_lines descriptions lines [];
  Ret (slice_to results top_k).

Definition join_lines (l : list string) : string :=
  match l with
  | [] => ""
  | x :: l' => foldl (fun acc y => acc +:+ String newline y) x l'
  end.

(** [f"{i+1}. {filename}: {desc}"] over [enumerate(descriptions.items())],
    joined by newlines. *)
Definition descriptions_text (descriptions : gmap string string) : string :=
  join_lines
    (imap (fun i '(filename, desc) =>
             pretty (Z.of_nat i + 1) +:+ ". " +:+ filename +:+ ": " +:+ desc)
          (map_to_list descriptions)).

Definition search_prompt (query : string) (descriptions : gmap string string)
    (top_k : Z) : string :=
  "Given this search query: '" +:+ query
  +:+ "', rank these screenshot descriptions by relevance. Return the top "
  +:+ pretty top_k +:+ " matches with confidence scores (0-100)."
  +:+ String newline (String newline "Format your response as:")
  +:+ String newline "1. filename: confidence_score"
  +:+ String newline "2. filename: confidence_score"
  +:+ String newline "..."
  +:+ String newline (String newline "Screenshot descriptions:")
  +:+ String newline (descriptions_text descriptions)
  +:+ String newline "".

(** [search_screenshots(query, descriptions, top_k)]. [client prompt] is the
    outcome of the chat-completion call: the reply text, or an exception. *)
Definition search_screenshots (client : string -> res string) (query : string)
    (descriptions : gmap string string) (top_k : Z) : res (list hit) :=
  if dict_empty descriptions then Ret []
  else
    match (response_text ← client (search_prompt query descriptions top_k);
           parse_response descriptions response_text top_k) with
    | Ret results => Ret results
    | Raise _ => Ret []
    end.

(** [load_descriptions(file_path)] of this module (its messages are not
    modelled). *)
Definition load_descriptions (E : env) (file_path : string) (w : world)
    : gmap string string :=
  match files w !! file_path with
  | None => ∅
  | Some text =>
      match json_load E text with
      | Some d => d
      | None => ∅
      end
  end.


End Search.

(** ** index_screenshots.py *)

Module Index.

(** [get_image_description(image_path)]: the reply text, or [""] when
    anything raised. Every call is logged. *)
Definition get_image_description (E : env) (image_path : string) (w : world)
    : string * world :=
  let w' := World (files w) (folders w) (calls w ++ [image_path]) in
  match vision E (length (calls w)) image_path with
  | Ret content => (content, w')
  | Raise _ => (""%string, w')
  end.

Definition load_descriptions (E : env) (file_path : string) (w : world)
    : gmap string string :=
  match files w !! file_path with
  | Some text =>
      match json_load E text with
      | Some d => d
      | None => ∅
      end
  | None => ∅
  end.

Definition save_descriptions (E : env) (descriptions : gmap string string)
    (file_path : string) (w : world) : world :=
  World (<[file_path := json_dump E descriptions]> (files w))
        (folders w) (calls w).

(** One iteration of the loop of [index_screenshots] over [image_files];
    the state is the dict, the [processed] counter and the world. *)
Definition index_step (E : env)
    (st : gmap string string * nat * world) (image_path : string)
    : gmap string string * nat * world :=
  let '(descriptions, processed, w) := st in
  let filename := image_path in
  if dict_in filename descriptions then st
  else
    let '(description, w') := get_image_description E image_path w in
    if truthy description
    then (<[filename := description]> descriptions, S processed, w')
    else (descriptions, processed, w').

Definition index_loop (E : env) (image_files : list string)
    (st : gmap string string * nat * world)
    : gmap string string * nat * world :=
  foldl (index_step E) st image_files.

(** [index_screenshots(folder_path, output_file)] *)
Definition index_screenshots (E : env) (folder_path output_file : string)
    (w : world) : world :=
  match folders w !! folder_path with
  | None => w
  | Some image_files =>
      let descriptions := load_descriptions E output_file w in
      match image_files with
      | [] => w
      | _ :: _ =>
          let '(descriptions', _, w') :=
            index_loop E image_files (descriptions, 0%nat, w) in
          save_descriptions E descriptions' output_file w'
      end
  end.

(** [process_single_image(image_path, descriptions_file)] *)
Definition process_single_image (E : env)
    (image_path descriptions_file : string) (w : world) : bool * world :=
  let descriptions := load_descriptions E descriptions_file w in
  if dict_in image_path descriptions then (true, w)
  else
    let '(description, w') := get_image_description E image_path w in
    if truthy description
    then (true,
          save_descriptions E (<[image_path := description]> descriptions)
                            descriptions_file w')
    else (false, w').

End Index.

(** ** app.py: the [/search] and [/upload] handlers *)

Module App.

Definition DESCRIPTIONS_FILE : string := "screenshot_descriptions.json".





(** *** The [/upload] handler *)

Definition UPLOAD_FOLDER : string := "screenshots".

Definition SUPPORTED_FORMATS : list string :=
  [".png"; ".jpg"; ".jpeg"; ".gif"; ".bmp"; ".webp"].

(** [allowed_file(filename)] *)
Definition allowed_file (E : env) (filename : string) : bool :=
  Str.contains "." filename
  && bool_decide (Str.lower (path_suffix E filename) ∈ SUPPORTED_FORMATS).

(** [os.path.join(a, b)] with POSIX paths. *)
Definition path_join (a b : string) : string :=
  match Str.after_prefix "/" b with
  | Some _ => b
  | None =>
      match a with
      | EmptyString => b
      | String _ _ =>
          match Str.after_prefix "/" (String.rev a) with
          | Some _ => a +:+ b
          | None => a +:+ "/" +:+ b
          end
      end
  end.

(** One entry of [results]. *)
Record upload_result : Type := UploadResult {
  result_filename : string;
  status : string;
  message : string
}.

Inductive upload_response : Type :=
  | UploadBadRequest (error : string)
  | Uploaded (results : list upload_result) (total_processed : nat).

(** One iteration of the loop over the uploaded files; [name] is
    [file.filename], [present] is the set of paths that exist
    ([os.path.exists]), which [file.save] extends. *)
Definition upload_step (E : env)
    (st : list upload_result * gmap string string * gset string * world)
    (name : string)
    : list upload_result * gmap string string * gset string * world :=
  let '(results, descriptions, present, w) := st in
  if truthy name && allowed_file E name then
    let filename := secure_filename E name in
    if bool_decide (path_join UPLOAD_FOLDER filename ∈ present) then
      (results ++ [UploadResult filename "skipped" "File already exists"],
       descriptions, present, w)
    else
      let filepath := path_join UPLOAD_FOLDER filename in
      let present' := {[ filepath ]} ∪ present in
      let '(description, w') := Index.get_image_description E filepath w in
      if truthy description then
        (results ++ [UploadResult filename "success" "File uploaded and processed"],
         <[filepath := description]> descriptions, present', w')
      else
        (results ++ [UploadResult filename "error" "Failed to process image"],
         descriptions, present', w')
  else
    (results ++ [UploadResult name "error" "Invalid file type"],
     descriptions, present, w).

Definition is_success (r : upload_result) : bool :=
  String.eqb (status r) "success".

(** [upload_files()]; [request_files] is [None] when the request has no
    [files] part, otherwise the names of the files sent. *)
Definition upload_files (E : env) (request_files : option (list string))
    (present : gset string) (w : world)
    : upload_response * gset string * world :=
  match request_files with
  | None => (UploadBadRequest "No files provided", present, w)
  | Some files =>
      match files with
      | [] => (UploadBadRequest "No files selected", present, w)
      | first :: _ =>
          if negb (truthy first)
          then (UploadBadRequest "No files selected", present, w)
          else
            let descriptions := Index.load_descriptions E DESCRIPTIONS_FILE w in
            let '(results, descriptions', present', w') :=
              foldl (upload_step E) ([], descriptions, present, w) files in
            (Uploaded results (length (List.filter is_success results)),
             present',
             Index.save_descriptions E descriptions' DESCRIPTIONS_FILE w')
      end
  end.

End App.

(** ** A JSON writer and reader for flat objects of strings

    An instance of the environment's [json_dump] and [json_load], used to
    run the model on concrete inputs. The writer follows
    [json.dump(d, f, indent=2)] (ASCII output, two-space indent, members in
    the order the map enumerates them); the reader accepts objects whose
    values are strings. *)

Module Json.

Definition dquote : ascii := "034"%char.
Definition backslash : ascii := "092"%char.

Definition hex_digit (n : N) : ascii :=
  ascii_of_N (if (n <? 10)%N then 48 + n else 87 + n)%N.

Definition escape_char (c : ascii) : string :=
  let n := Str.code c in
  if (n =? 34)%N then String backslash (String dquote EmptyString)
  else if (n =? 92)%N then String backslash (String backslash EmptyString)
  else if (n =? 10)%N then String backslash "n"
  else if (n =? 13)%N then String backslash "r"
  else if (n =? 9)%N then String backslash "t"
  else if (n =? 8)%N then String backslash "b"
  else if (n =? 12)%N then String backslash "f"
  else if ((n <? 32) || (126 <? n))%N
  then String backslash
         ("u00" +:+ String (hex_digit (n / 16)) (String (hex_digit (n mod 16)) EmptyString))
  else String c EmptyString.

Fixpoint escape (s : string) : string :=
  match s with
  | EmptyString => EmptyString
  | String c s' => escape_char c +:+ escape s'
  end.

Definition encode_string (s : string) : string :=
  String dquote (escape s +:+ String dquote EmptyString).

Definition item (kv : string * string) : string :=
  "  " +:+ encode_string kv.1 +:+ ": " +:+ encode_string kv.2.

Definition dump (d : gmap string string) : string :=
  match map_to_list d with
  | [] => "{}"
  | x :: l =>
      "{" +:+ String newline
        (foldl (fun acc y => acc +:+ "," +:+ String newline (item y)) (item x) l)
      +:+ String newline "}"
  end.

Definition hex_value (c : ascii) : option N :=
  let n := Str.code c in
  if ((48 <=? n) && (n <=? 57))%N then Some (n - 48)%N
  else if ((97 <=? n) && (n <=? 102))%N then Some (n - 87)%N
  else if ((65 <=? n) && (n <=? 70))%N then Some (n - 55)%N
  else None.

Definition unescape (e : ascii) : option ascii :=
  match Str.code e with
  | 34%N => Some dquote
  | 92%N => Some backslash
  | 47%N => Some "/"%char
  | 110%N => Some "010"%char
  | 114%N => Some "013"%char
  | 116%N => Some "009"%char
  | 98%N => Some "008"%char
  | 102%N => Some "012"%char
  | _ => None
  end.

Definition push (c : ascii) (r : option (string * string))
    : option (string * string) :=
  match r with
  | Some (t, rest) => Some (String c t, rest)
  | None => None
  end.

(** Reads a string after its opening quote: the decoded text and what
    follows the closing quote. *)
Fixpoint read_string (s : string) : option (string * string) :=
  match s with
  | EmptyString => None
  | String c s' =>
      if Ascii.eqb c dquote then Some (EmptyString, s')
      else if Ascii.eqb c backslash then
        match s' with
        | EmptyString => None
        | String e s'' =>
            if Ascii.eqb e "u"%char then
              match s'' with
              | String h1 (String h2 (String h3 (String h4 s3))) =>
                  match hex_value h1, hex_value h2, hex_value h3, hex_value h4 with
                  | Some 0%N, Some 0%N, Some a, Some b =>
                      push (ascii_of_N (16 * a + b)) (read_string s3)
                  | _, _, _, _ => None
                  end
              | _ => None
              end
            else
              match unescape e with
              | Some c' => push c' (read_string s'')
              | None => None
              end
        end
      else if (Str.code c <? 32)%N then None
      else push c (read_string s')
  end.

Fixpoint skip_ws (s : string) : string :=
  match s with
  | EmptyString => EmptyString
  | String c s' =>
      let n := Str.code c in
      if ((n =? 32) || (n =? 9) || (n =? 10) || (n =? 13))%N
      then skip_ws s' else s
  end.

(** Reads [key: value] members up to the closing brace. *)
Fixpoint read_members (fuel : nat) (s : string) (acc : gmap string string)
    : option (gmap string string * string) :=
  match fuel with
  | O => None
  | S fuel' =>
      match skip_ws s with
      | String q s1 =>
          if negb (Ascii.eqb q dquote) then None else
          match read_string s1 with
          | None => None
          | Some (k, s2) =>
              match skip_ws s2 with
              | String c s3 =>
                  if negb (Ascii.eqb c ":"%char) then None else
                  match skip_ws s3 with
                  | String q' s4 =>
                      if negb (Ascii.eqb q' dquote) then None else
                      match read_string s4 with
                      | None => None
                      | Some (v, s5) =>
                          match skip_ws s5 with
                          | String x s6 =>
                              if Ascii.eqb x ","%char
                              then read_members fuel' s6 (<[k := v]> acc)
                              else if Ascii.eqb x "}"%char
                              then Some (<[k := v]> acc, s6)
                              else None
                          | EmptyString => None
                          end
                      end
                  | EmptyString => None
                  end
              | EmptyString => None
              end
          end
      | EmptyString => None
      end
  end.

Definition at_end (s : string) : bool :=
  match skip_ws s with
  | EmptyString => true
  | String _ _ => false
  end.

Definition load (text : string) : option (gmap string string) :=
  match skip_ws text with
  | String b s1 =>
      if negb (Ascii.eqb b "{"%char) then None else
      match skip_ws s1 with
      | String e s2 =>
          if Ascii.eqb e "}"%char
          then (if at_end s2 then Some ∅ else None)
          else
            match read_members (String.length text) s1 ∅ with
            | Some (d, rest) => if at_end rest then Some d else None
            | None => None
            end
      | EmptyString => None
      end
  | EmptyString => None
  end.

(** The members of an object as [dump] lays them out, followed by [tail]. *)
Fixpoint members_text (l : list (string * string)) (tail : string) : string :=
  match l with
  | [] => tail
  | x :: l' =>
      item x +:+
      match l' with
      | [] => String newline (String "}" tail)
      | _ :: _ => String "," (String newline (members_text l' tail))
      end
  end.

(** What reading one member does to the map read so far. *)
Definition put (m : gmap string string) (kv : string * string)
    : gmap string string :=
  <[kv.1 := kv.2]> m.

End Json.

(** ** Notions the statements use *)

(** [sub] occurs in [s]. *)
Definition occurs (sub s : string) : Prop :=
  exists a b, s = a +:+ sub +:+ b.

Definition has_char (c : ascii) (s : string) : Prop :=
  occurs (String c EmptyString) s.

Definition has_digit (s : string) : Prop :=
  exists c, has_char c s /\ Str.isdigit c = true.

(** [a] and [b] are the texts around the first occurrence of [sep] in [s]. *)
Definition first_split (sep s a b : string) : Prop :=
  s = a +:+ sep +:+ b /\
  forall a' b', s = a' +:+ sep +:+ b' ->
    (String.length a <= String.length a')%nat.

(** What one reply line adds to the results: the loop's test followed by
    the [try] block run on an empty list. *)
Definition line_hit (descriptions : gmap string string) (line : string)
    : option Search.hit :=
  if Search.candidate line then
    match Search.line_body descriptions line [] with
    | Ret hs => head hs
    | Raise _ => None
    end
  else None.

(** The triples of the lines of a reply that survive, in reply order. *)
Definition survivors (descriptions : gmap string string)
    (response_text : string) : list Search.hit :=
  omap (line_hit descriptions) (Str.split newline (Str.strip response_text)).

(** [f] is the identifier a left part [left] stands for: what follows the
    first [". "] of the stripped left part, or all of it when it has none. *)
Definition names (left f : string) : Prop :=
  (exists a, first_split ". " (Str.strip left) a f) \/
  (~ occurs ". " (Str.strip left) /\ f = Str.strip left).

(** [line] reads [left : mid] or [left : mid : ...], the digits of [mid] are
    the decimal number [n], and [left] names a key of the store. *)
Definition well_formed (descriptions : gmap string string) (line : string)
    (h : Search.hit) : Prop :=
  exists left mid rest f desc n,
    line = left +:+ String colon (mid +:+ rest) /\
    ~ has_char colon left /\ ~ has_char colon mid /\
    (rest = EmptyString \/ exists r, rest = String colon r) /\
    names left f /\
    Str.int (Str.filter Str.isdigit mid) = Ret n /\
    descriptions !! f = Some desc /\
    h = (f, desc, n).

(** The per-line extraction as the specification words it: the line is cut
    at its first [':'], a leading ordinal ["N. "] is taken off the left
    part, and the confidence is read from the digits of everything after
    that [':']. *)
Module Spec.

Fixpoint drop_decimals (s : string) : string :=
  match s with
  | EmptyString => EmptyString
  | String c s' => if Str.isdecimal c then drop_decimals s' else s
  end.

Definition strip_ordinal (s : string) : string :=
  match s with
  | EmptyString => s
  | String c _ =>
      if Str.isdecimal c then
        match Str.after_prefix ". " (drop_decimals s) with
        | Some name => name
        | None => s
        end
      else s
  end.

Definition line_hit (descriptions : gmap string string) (line : string)
    : option Search.hit :=
  if Search.candidate line then
    match Str.partition ":" line with
    | Some (lhs, rhs) =>
        let f := strip_ordinal (Str.strip lhs) in
        match Str.int (Str.filter Str.isdigit rhs), descriptions !! f with
        | Ret n, Some desc => Some (f, desc, n)
        | _, _ => None
        end
    | None => None
    end
  else None.

End Spec.

(** The store invariant: every key has a non-empty description. *)
Definition store_ok (d : gmap string string) : Prop :=
  forall k v, d !! k = Some v -> v <> EmptyString.

(** [json.load] reads back what [json.dump] wrote. *)
Definition codec_ok (E : env) : Prop :=
  forall m, json_load E (json_dump E m) = Some m.

(** ** Concrete inputs *)

Module Demo.

Definition store : gmap string string :=
  {[ "login.png" := "a login form" ]}.


Definition answer (text : string) : string -> res string :=
  fun _ => Ret text.

Definition failing : nat -> string -> res string :=
  fun _ _ => Raise APIError.

(** A vision client that fails on its first call and answers afterwards. *)
Definition flaky : nat -> string -> res string :=
  fun n _ =>
    match n with
    | O => Raise APIError
    | S _ => Ret "a settings dialog"
    end.

Definition described : nat -> string -> res string :=
  fun _ _ => Ret "a settings dialog".

Definition base_name (p : string) : string :=
  default p (last (Str.split "/" p)).

Definition suffix (p : string) : string :=
  match Str.split "." (base_name p) with
  | _ :: _ :: _ as parts => "." +:+ default EmptyString (last parts)
  | _ => EmptyString
  end.

Definition E (v : nat -> string -> res string) : env :=
  Env Json.dump Json.load v base_name suffix (fun name => name).

Definition empty_world : world := World ∅ ∅ [].

(** A world whose index file holds something else. *)
Definition stale_world : world :=
  World {[ "index.json" := Json.dump {[ "old.png" := "an old entry" ]} ]}
        ∅ [].

(** A world with one folder holding one image and no index file. *)
Definition one_image : world :=
  World ∅ {[ "shots" := ["shots/a.png"] ]} [].

End Demo.

(** An environment for the upload handler: [Path(p).suffix] is the text
    from the last dot of the name, when that dot is neither its first nor
    its last character; [secure_filename] leaves these plain names as they
    are. *)
Module DemoWeb.

Definition suffix (p : string) : string :=
  let parts := Str.split "." (Demo.base_name p) in
  match parts, last parts with
  | _ :: _ :: _, Some ext =>
      if bool_decide (ext = EmptyString) then EmptyString
      else if bool_decide (parts = [EmptyString; ext]) then EmptyString
      else "." +:+ ext
  | _, _ => EmptyString
  end.

Definition E (v : nat -> string -> res string) : env :=
  Env Json.dump Json.load v Demo.base_name suffix (fun name => name).

End DemoWeb.

(** The status entry a file gets. *)
Definition status_of (E : env) (name : string) (r : App.upload_result) : Prop :=
  (App.result_filename r = name /\ App.status r = "error"%string) \/
  (App.result_filename r = secure_filename E name /\
   (App.status r = "skipped"%string \/ App.status r = "success"%string
    \/ App.status r = "error"%string)).


(** * Facts about the string primitives *)

Lemma str_app_cons (c : ascii) (s t : string) : String c s +:+ t = String c (s +:+ t).
Proof. reflexivity. Qed.

Lemma str_app_nil_l (t : string) : "" +:+ t = t.
Proof. reflexivity. Qed.

Lemma str_app_nil_r (s : string) : s +:+ "" = s.
Proof. induction s as [|c s IH]; [done|]. by rewrite str_app_cons, IH. Qed.

Lemma str_app_assoc (a b c : string) : (a +:+ b) +:+ c = a +:+ b +:+ c.
Proof. induction a as [|x a IH]; [done|]. by rewrite !str_app_cons, IH. Qed.

Lemma str_app_inj_length (a a' u v : string) :
  String.length a = String.length a' -> a +:+ u = a' +:+ v -> a = a' /\ u = v.
Proof.
  revert a'. induction a as [|c a IH]; intros [|c' a']; simpl; try done.
  rewrite !str_app_cons. intros [= Hl] [= -> H]. destruct (IH a' Hl H) as [-> ->]. done.
Qed.

Lemma after_prefix_spec (p s r : string) :
  Str.after_prefix p s = Some r <-> s = p +:+ r.
Proof.
  revert s. induction p as [|a p IH]; intros s; simpl.
  - rewrite str_app_nil_l. split; [by intros [= ->]|by intros ->].
  - rewrite str_app_cons. destruct s as [|b s]; [by split|].
    destruct (Ascii.eqb_spec a b) as [->|Hne].
    + rewrite IH. split; [by intros ->|by intros [= ->]].
    + split; [done|]. intros [= -> _]. done.
Qed.

Lemma partition_sound (sep s a b : string) :
  Str.partition sep s = Some (a, b) -> s = a +:+ sep +:+ b.
Proof.
  revert a. induction s as [|c s IH]; intros a; simpl.
  - destruct (Str.after_prefix sep "") as [r|] eqn:Hp; [|done].
    intros [= <- <-]. by apply after_prefix_spec in Hp.
  - destruct (Str.after_prefix sep (String c s)) as [r|] eqn:Hp.
    + intros [= <- <-]. by apply after_prefix_spec in Hp.
    + destruct (Str.partition sep s) as [[a0 b0]|]; [|done].
      intros [= <- <-]. rewrite str_app_cons. f_equal. by apply IH.
Qed.

Lemma partition_first (sep s a b : string) :
  Str.partition sep s = Some (a, b) ->
  forall a' b', s = a' +:+ sep +:+ b' -> (String.length a <= String.length a')%nat.
Proof.
  revert a. induction s as [|c s IH]; intros a; simpl.
  - destruct (Str.after_prefix sep "") as [r|] eqn:Hp; [|done].
    intros [= <- <-] a' b' _. simpl. lia.
  - destruct (Str.after_prefix sep (String c s)) as [r|] eqn:Hp.
    + intros [= <- <-] a' b' _. simpl. lia.
    + destruct (Str.partition sep s) as [[a0 b0]|] eqn:Hq; [|done].
      intros [= <- <-] a' b' Heq.
      destruct a' as [|c' a'].
      * rewrite str_app_nil_l in Heq. apply after_prefix_spec in Heq. congruence.
      * rewrite str_app_cons in Heq. injection Heq as -> Heq. simpl.
        specialize (IH a0 eq_refl a' b' Heq). lia.
Qed.

Lemma partition_none (sep s : string) :
  Str.partition sep s = None -> ~ occurs sep s.
Proof.
  induction s as [|c s IH]; simpl.
  - destruct (Str.after_prefix sep "") as [r|] eqn:Hp; [done|].
    intros _ (a & b & Heq). destruct a; [|done].
    rewrite str_app_nil_l in Heq. apply after_prefix_spec in Heq. congruence.
  - destruct (Str.after_prefix sep (String c s)) as [r|] eqn:Hp; [done|].
    destruct (Str.partition sep s) as [[a0 b0]|] eqn:Hq; [done|].
    intros _ (a & b & Heq). destruct a as [|c' a].
    + rewrite str_app_nil_l in Heq. apply after_prefix_spec in Heq. congruence.
    + rewrite str_app_cons in Heq. injection Heq as -> Heq. apply IH; [done|]. by exists a, b.
Qed.

Lemma partition_spec (sep s a b : string) :
  Str.partition sep s = Some (a, b) <-> first_split sep s a b.
Proof.
  split.
  - intros H. split; [by apply partition_sound|by apply (partition_first sep s a b)].
  - intros [Heq Hmin]. destruct (Str.partition sep s) as [[a0 b0]|] eqn:Hp.
    + pose proof (partition_sound sep s a0 b0 Hp) as Heq0.
      pose proof (partition_first sep s a0 b0 Hp a b Heq) as Hle.
      pose proof (Hmin a0 b0 Heq0) as Hge.
      assert (Hlen : String.length a0 = String.length a) by lia.
      rewrite Heq in Heq0. symmetry in Heq0.
      destruct (str_app_inj_length _ _ _ _ Hlen Heq0) as [-> Hb].
      apply (inj (String.app sep)) in Hb. by subst.
    + apply partition_none in Hp. destruct Hp. by exists a, b.
Qed.

Lemma contains_spec (sub s : string) :
  Str.contains sub s = true <-> occurs sub s.
Proof.
  unfold Str.contains. destruct (Str.partition sub s) as [[a b]|] eqn:Hp.
  - split; [|done]. intros _. exists a, b. by apply partition_sound.
  - split; [done|]. intros H. by apply partition_none in Hp.
Qed.

(** Splitting on a character. *)

Lemma has_char_cons (c a : ascii) (s : string) :
  has_char c (String a s) <-> a = c \/ has_char c s.
Proof.
  split.
  - intros (x & y & Heq). destruct x as [|a' x].
    + rewrite str_app_nil_l, str_app_cons in Heq. injection Heq as -> _. by left.
    + rewrite str_app_cons in Heq. injection Heq as -> Heq. right. by exists x, y.
  - intros [->|(x & y & ->)].
    + by exists "", s.
    + by exists (String a x), y.
Qed.

Lemma has_char_nil (c : ascii) : ~ has_char c "".
Proof. intros (x & y & Heq). by destruct x. Qed.

Lemma split_cons (c : ascii) (s : string) :
  exists h t, Str.split c s = h :: t.
Proof.
  induction s as [|a s (h & t & IH)]; simpl; [by eauto|].
  destruct (Ascii.eqb a c); [by eauto|]. rewrite IH. by eauto.
Qed.

Lemma split_no_sep (c : ascii) (s : string) :
  ~ has_char c s -> Str.split c s = [s].
Proof.
  induction s as [|a s IH]; intros Hn; simpl; [done|].
  destruct (Ascii.eqb_spec a c) as [->|Hne].
  - destruct Hn. apply has_char_cons. by left.
  - rewrite IH; [done|]. intros H. apply Hn, has_char_cons. by right.
Qed.

Lemma split_app (c : ascii) (a b : string) :
  ~ has_char c a -> Str.split c (a +:+ String c b) = a :: Str.split c b.
Proof.
  induction a as [|x a IH]; intros Hn.
  - rewrite str_app_nil_l. simpl. by rewrite Ascii.eqb_refl.
  - rewrite str_app_cons. simpl. destruct (Ascii.eqb_spec x c) as [->|Hne].
    + destruct Hn. apply has_char_cons. by left.
    + rewrite IH; [done|]. intros H. apply Hn, has_char_cons. by right.
Qed.

Lemma split_length (c : ascii) (s : string) :
  has_char c s -> (2 <= length (Str.split c s))%nat.
Proof.
  induction s as [|a s IH]; intros H.
  - by apply has_char_nil in H.
  - simpl. destruct (Ascii.eqb_spec a c) as [->|Hne].
    + destruct (split_cons c s) as (h & t & ->). simpl. lia.
    + apply has_char_cons in H as [?|H]; [done|]. specialize (IH H).
      destruct (Str.split c s) as [|h t]; simpl in *; lia.
Qed.

(** * Indexing, decimal reading, stripping *)

Lemma getitem_exn {A : Type} (l : list A) (i : Z) (e : exn) :
  getitem l i = Raise e -> e = IndexError.
Proof.
  unfold getitem. destruct (_ <? 0); [|destruct (_ !! _)]; congruence.
Qed.

Lemma getitem_last2 {A : Type} (a b : A) : getitem [a; b] (-1) = Ret b.
Proof. reflexivity. Qed.

Lemma int_from_exn (s : string) (acc : Z) (e : exn) :
  Str.int_from acc s = Raise e -> e = ValueError.
Proof.
  revert acc. induction s as [|c s IH]; intros acc; simpl; [done|].
  destruct (Str.isdecimal c); [apply IH|congruence].
Qed.

Lemma int_exn (s : string) (e : exn) : Str.int s = Raise e -> e = ValueError.
Proof. destruct s; [simpl; congruence|apply int_from_exn]. Qed.

Lemma isdecimal_code (c : ascii) :
  Str.isdecimal c = true -> (48 <= Str.code c <= 57)%N.
Proof.
  unfold Str.isdecimal. intros [H1%N.leb_le H2%N.leb_le]%andb_true_iff. lia.
Qed.

Lemma int_from_nonneg (s : string) (acc n : Z) :
  0 <= acc -> Str.int_from acc s = Ret n -> 0 <= n.
Proof.
  revert acc. induction s as [|c s IH]; intros acc Hacc; simpl.
  - intros [= <-]. done.
  - destruct (Str.isdecimal c) eqn:Hc; [|done].
    apply isdecimal_code in Hc. apply IH. lia.
Qed.

Lemma int_nonneg (s : string) (n : Z) : Str.int s = Ret n -> 0 <= n.
Proof. destruct s; [done|]. by apply int_from_nonneg. Qed.

Lemma int_nil_filter (s : string) :
  Str.filter Str.isdigit s = EmptyString ->
  Str.int (Str.filter Str.isdigit s) = Raise ValueError.
Proof. by intros ->. Qed.

Lemma isspace_not_digit (c : ascii) :
  Str.isspace c = true -> Str.isdigit c = false.
Proof. destruct c as [[] [] [] [] [] [] [] []]; vm_compute; congruence. Qed.

Lemma filter_lstrip (s : string) :
  Str.filter Str.isdigit (Str.lstrip s) = Str.filter Str.isdigit s.
Proof.
  induction s as [|c s IH]; simpl; [done|].
  destruct (Str.isspace c) eqn:Hc; [|done].
  by rewrite (isspace_not_digit c Hc).
Qed.

Lemma filter_rstrip (s : string) :
  Str.filter Str.isdigit (Str.rstrip s) = Str.filter Str.isdigit s.
Proof.
  induction s as [|c s IH]; simpl; [done|].
  destruct (Str.rstrip s) as [|c' r] eqn:Hr.
  - simpl in IH. rewrite <- IH. destruct (Str.isspace c) eqn:Hc.
    + by rewrite (isspace_not_digit c Hc).
    + done.
  - rewrite <- IH. done.
Qed.

Lemma filter_strip (s : string) :
  Str.filter Str.isdigit (Str.strip s) = Str.filter Str.isdigit s.
Proof. unfold Str.strip. by rewrite filter_rstrip, filter_lstrip. Qed.

(** * One reply line *)

Ltac unfold_bind := unfold mbind, res_bind, bind.

Lemma filename_exn (fp : string) (e : exn) :
  (if Str.contains ". " fp then getitem (Str.split1 ". " fp) (-1) else Ret fp)
  = Raise e -> e = IndexError.
Proof. destruct (Str.contains _ _); [apply getitem_exn|done]. Qed.

Lemma dict_in_getitem (d : gmap string string) (k : string) :
  dict_in k d = true -> exists v, d !! k = Some v /\ dict_getitem d k = Ret v.
Proof.
  unfold dict_in, dict_getitem. intros [v Hv]%bool_decide_eq_true.
  exists v. by rewrite Hv.
Qed.

Lemma dict_in_false (d : gmap string string) (k : string) :
  dict_in k d = false -> d !! k = None.
Proof.
  unfold dict_in. intros H%bool_decide_eq_false.
  destruct (d !! k) eqn:Hk; [|done]. destruct H. by eexists.
Qed.

(** The [try] block raises nothing but what its handler catches. *)
Lemma line_body_exn (d : gmap string string) (line : string)
    (acc : list Search.hit) (e : exn) :
  Search.line_body d line acc = Raise e -> e = ValueError \/ e = IndexError.
Proof.
  unfold Search.line_body. destruct (2 <=? _)%nat; [|done]. unfold_bind.
  destruct (getitem _ 0) as [p0|e0] eqn:H0; [|intros [= <-]; right; by eapply getitem_exn].
  destruct (getitem _ 1) as [p1|e1] eqn:H1; [|intros [= <-]; right; by eapply getitem_exn].
  destruct (if Str.contains _ _ then _ else _) as [f|e2] eqn:H2;
    [|intros [= <-]; right; by eapply filename_exn].
  destruct (Str.int _) as [n|e3] eqn:H3; [|intros [= <-]; left; by eapply int_exn].
  destruct (dict_in f d) eqn:Hin; [|done].
  destruct (dict_in_getitem d f Hin) as (v & _ & ->). done.
Qed.

(** The block appends to the list it is given at most one triple, which
    does not depend on that list. *)
Lemma line_body_acc (d : gmap string string) (line : string)
    (acc : list Search.hit) :
  Search.line_body d line acc =
  match Search.line_body d line [] with
  | Ret hs => Ret (acc ++ hs)
  | Raise e => Raise e
  end.
Proof.
  unfold Search.line_body. destruct (2 <=? _)%nat; [|by rewrite app_nil_r].
  unfold_bind.
  destruct (getitem _ 0) as [p0|e0]; [|done].
  destruct (getitem _ 1) as [p1|e1]; [|done].
  destruct (if Str.contains _ _ then _ else _) as [f|e2]; [|done].
  destruct (Str.int _) as [n|e3]; [|done].
  destruct (dict_in f d); [|by rewrite app_nil_r].
  destruct (dict_getitem d f); done.
Qed.

Lemma line_body_hits (d : gmap string string) (line : string)
    (hs : list Search.hit) :
  Search.line_body d line [] = Ret hs -> hs = [] \/ exists h, hs = [h].
Proof.
  unfold Search.line_body. destruct (2 <=? _)%nat; [|intros [= <-]; by left].
  unfold_bind.
  destruct (getitem _ 0) as [p0|e0]; [|done].
  destruct (getitem _ 1) as [p1|e1]; [|done].
  destruct (if Str.contains _ _ then _ else _) as [f|e2]; [|done].
  destruct (Str.int _) as [n|e3]; [|done].
  destruct (dict_in f d); [|intros [= <-]; by left].
  destruct (dict_getitem d f); [|done]. intros [= <-]. right. by eexists.
Qed.

(** * The parsing loop *)

Lemma parse_lines_spec (d : gmap string string) (lines : list string)
    (acc : list Search.hit) :
  Search.parse_lines d lines acc = Ret (acc ++ omap (line_hit d) lines).
Proof.
  revert acc. induction lines as [|line rest IH]; intros acc; simpl.
  - by rewrite app_nil_r.
  - unfold line_hit at 1. destruct (Search.candidate line); [|apply IH].
    rewrite line_body_acc.
    destruct (Search.line_body d line []) as [hs|e] eqn:Hb.
    + rewrite IH. destruct (line_body_hits d line hs Hb) as [->|[h ->]]; simpl.
      * by rewrite app_nil_r.
      * by rewrite <- app_assoc.
    + destruct (line_body_exn d line [] e Hb) as [->| ->]; apply IH.
Qed.

Lemma parse_response_spec (d : gmap string string) (text : string) (k : Z) :
  Search.parse_response d text k = Ret (slice_to (survivors d text) k).
Proof.
  unfold Search.parse_response. rewrite parse_lines_spec. done.
Qed.

Lemma search_screenshots_spec (client : string -> res string) (query : string)
    (d : gmap string string) (k : Z) :
  Search.search_screenshots client query d k =
  Ret (if dict_empty d then []
       else match client (Search.search_prompt query d k) with
            | Ret text => slice_to (survivors d text) k
            | Raise _ => []
            end).
Proof.
  unfold Search.search_screenshots. destruct (dict_empty d); [done|].
  unfold_bind. destruct (client _) as [text|e]; [|done].
  by rewrite parse_response_spec.
Qed.

(** * The shape of a candidate line *)

Lemma cut_at (c : ascii) (s : string) :
  exists a rest, s = a +:+ rest /\ ~ has_char c a /\
                 (rest = EmptyString \/ exists r, rest = String c r).
Proof.
  induction s as [|x s (a & rest & -> & Ha & Hrest)].
  - exists EmptyString, EmptyString. split; [done|]. split; [apply has_char_nil|by left].
  - destruct (Ascii.eqb_spec x c) as [->|Hne].
    + exists EmptyString, (String c (a +:+ rest)).
      split; [done|]. split; [apply has_char_nil|right; by eexists].
    + exists (String x a), rest. split; [done|]. split; [|done].
      intros [?|?]%has_char_cons; [done|by apply Ha].
Qed.

Lemma has_char_app (c : ascii) (a b : string) :
  has_char c (a +:+ b) <-> has_char c a \/ has_char c b.
Proof.
  induction a as [|x a IH].
  - rewrite str_app_nil_l. split; [by right|]. intros [H|H]; [|done].
    by apply has_char_nil in H.
  - rewrite str_app_cons, !has_char_cons, IH. tauto.
Qed.

Lemma split_shape (left mid rest : string) :
  ~ has_char colon left -> ~ has_char colon mid ->
  (rest = EmptyString \/ exists r, rest = String colon r) ->
  exists tl, Str.split colon (left +:+ String colon (mid +:+ rest))
             = left :: mid :: tl.
Proof.
  intros Hl Hm Hrest. rewrite split_app by done.
  destruct Hrest as [->|[r ->]].
  - rewrite str_app_nil_r, split_no_sep by done. by exists [].
  - rewrite split_app by done. by eexists.
Qed.

Lemma line_body_shape (d : gmap string string) (left mid rest : string)
    (acc : list Search.hit) :
  ~ has_char colon left -> ~ has_char colon mid ->
  (rest = EmptyString \/ exists r, rest = String colon r) ->
  Search.line_body d (left +:+ String colon (mid +:+ rest)) acc =
  (filename ← (if Str.contains ". " (Str.strip left)
               then getitem (Str.split1 ". " (Str.strip left)) (-1)
               else Ret (Str.strip left));
   score ← Str.int (Str.filter Str.isdigit mid);
   if dict_in filename d then
     desc ← dict_getitem d filename; Ret (acc ++ [(filename, desc, score)])
   else Ret acc).
Proof.
  intros Hl Hm Hrest. unfold Search.line_body.
  destruct (split_shape left mid rest Hl Hm Hrest) as [tl ->].
  change (2 <=? length (left :: mid :: tl))%nat with true. cbv iota.
  change (getitem (left :: mid :: tl) 0) with (Ret left).
  change (getitem (left :: mid :: tl) 1) with (Ret mid).
  unfold_bind. by rewrite filter_strip.
Qed.

Lemma filename_names (fp f : string) :
  (if Str.contains ". " fp then getitem (Str.split1 ". " fp) (-1) else Ret fp)
  = Ret f <->
  (exists a, first_split ". " fp a f) \/ (~ occurs ". " fp /\ f = fp).
Proof.
  unfold Str.contains, Str.split1.
  destruct (Str.partition ". " fp) as [[a b]|] eqn:Hp.
  - rewrite getitem_last2. split.
    + intros [= <-]. left. exists a. by apply partition_spec.
    + intros [[a' H]|[H _]].
      * apply partition_spec in H. congruence.
      * destruct H. exists a, b. by apply partition_sound.
  - split.
    + intros [= <-]. right. split; [by apply partition_none|done].
    + intros [[a' H]|[_ ->]]; [|done].
      apply partition_spec in H. congruence.
Qed.

Lemma filename_total (fp : string) :
  exists f, (if Str.contains ". " fp then getitem (Str.split1 ". " fp) (-1)
             else Ret fp) = Ret f.
Proof.
  unfold Str.contains, Str.split1.
  destruct (Str.partition ". " fp) as [[a b]|]; by eexists.
Qed.

Lemma any_app (p : ascii -> bool) (a b : string) :
  Str.any p (a +:+ b) = Str.any p a || Str.any p b.
Proof.
  induction a as [|x a IH]; [done|].
  rewrite str_app_cons. simpl. by rewrite IH, orb_assoc.
Qed.

Lemma any_filter (p : ascii -> bool) (s : string) :
  Str.filter p s <> EmptyString -> Str.any p s = true.
Proof.
  induction s as [|x s IH]; simpl; [done|].
  destruct (p x); [done|]. apply IH.
Qed.

Lemma any_has_digit (s : string) :
  Str.any Str.isdigit s = true <-> has_digit s.
Proof.
  induction s as [|x s IH]; simpl.
  - split; [done|]. intros (c & H & _). by apply has_char_nil in H.
  - rewrite orb_true_iff, IH. split.
    + intros [H|(c & Hc & Hd)].
      * exists x. split; [apply has_char_cons; by left|done].
      * exists c. split; [apply has_char_cons; by right|done].
    + intros (c & [->|Hc]%has_char_cons & Hd); [by left|].
      right. by exists c.
Qed.

Lemma int_ret_filter (s : string) (n : Z) :
  Str.int (Str.filter Str.isdigit s) = Ret n ->
  Str.filter Str.isdigit s <> EmptyString.
Proof. by intros H Hs; rewrite Hs in H. Qed.

Lemma candidate_spec (line : string) :
  Search.candidate line = true <-> has_char colon line /\ has_digit line.
Proof.
  unfold Search.candidate. rewrite andb_true_iff, contains_spec, any_has_digit.
  done.
Qed.

(** A line adds a triple exactly when it is well formed. *)
Lemma line_hit_spec (d : gmap string string) (line : string) (h : Search.hit) :
  line_hit d line = Some h <-> well_formed d line h.
Proof.
  split.
  - unfold line_hit. destruct (Search.candidate line) eqn:Hc; [|done].
    apply candidate_spec in Hc as [Hcolon _].
    destruct (cut_at colon line) as (left & rest0 & -> & Hl & Hrest0).
    destruct Hrest0 as [->|[b ->]].
    { rewrite str_app_nil_r in Hcolon. done. }
    destruct (cut_at colon b) as (mid & rest & -> & Hm & Hrest).
    rewrite (line_body_shape d left mid rest [] Hl Hm Hrest). unfold_bind.
    destruct (if Str.contains _ _ then _ else _) as [f|e] eqn:Hf; [|done].
    destruct (Str.int _) as [n|e] eqn:Hn; [|done].
    destruct (dict_in f d) eqn:Hin; [|done].
    destruct (dict_in_getitem d f Hin) as (desc & Hd & ->). simpl.
    intros [= <-]. exists left, mid, rest, f, desc, n.
    repeat split; try done. by apply filename_names.
  - intros (left & mid & rest & f & desc & n & -> & Hl & Hm & Hrest & Hf & Hn & Hd & ->).
    unfold line_hit.
    assert (Search.candidate (left +:+ String colon (mid +:+ rest)) = true) as ->.
    { unfold Search.candidate. apply andb_true_iff. split.
      - apply contains_spec. by exists left, (mid +:+ rest).
      - rewrite any_app. simpl. rewrite any_app.
        rewrite (any_filter Str.isdigit mid) by (by eapply int_ret_filter).
        by rewrite !orb_true_r. }
    rewrite (line_body_shape d left mid rest [] Hl Hm Hrest). unfold_bind.
    apply filename_names in Hf as ->. rewrite Hn.
    unfold dict_in, dict_getitem. rewrite Hd.
    rewrite bool_decide_eq_true_2 by (by eexists). done.
Qed.

(** * Slicing *)

Lemma slice_to_prefix {A : Type} (l : list A) (k : Z) : slice_to l k `prefix_of` l.
Proof. unfold slice_to. destruct (0 <=? k); apply prefix_take. Qed.

Lemma slice_to_nonneg {A : Type} (l : list A) (k : Z) :
  0 <= k -> slice_to l k = take (Z.to_nat k) l.
Proof. unfold slice_to. intros H. by rewrite (proj2 (Z.leb_le 0 k) H). Qed.

Lemma slice_to_length {A : Type} (l : list A) (k : Z) :
  0 <= k -> Z.of_nat (length (slice_to l k)) <= k.
Proof. intros H. rewrite slice_to_nonneg, length_take by done. lia. Qed.

Lemma slice_to_Forall {A : Type} (P : A -> Prop) (l : list A) (k : Z) :
  Forall P l -> Forall P (slice_to l k).
Proof. unfold slice_to. destruct (0 <=? k); apply Forall_take. Qed.

Lemma survivors_Forall (P : Search.hit -> Prop) (d : gmap string string)
    (text : string) :
  (forall line h, well_formed d line h -> P h) -> Forall P (survivors d text).
Proof.
  intros H. apply Forall_forall. intros h (line & _ & Hl)%list_elem_of_omap.
  apply (H line). by apply line_hit_spec.
Qed.

(** Every triple of a result satisfies what every well-formed line's triple
    satisfies. *)
Lemma search_Forall (P : Search.hit -> Prop) (client : string -> res string)
    (query : string) (d : gmap string string) (k : Z) :
  (forall line h, well_formed d line h -> P h) ->
  exists r, Search.search_screenshots client query d k = Ret r /\ Forall P r.
Proof.
  intros H. rewrite search_screenshots_spec. eexists. split; [done|].
  destruct (dict_empty d); [done|]. destruct (client _); [|done].
  by apply slice_to_Forall, survivors_Forall.
Qed.

(** * The store on disk *)

Lemma load_save (E : env) (m : gmap string string) (p : string) (w : world) :
  json_load E (json_dump E m) = Some m ->
  Index.load_descriptions E p (Index.save_descriptions E m p w) = m.
Proof.
  intros H. unfold Index.load_descriptions, Index.save_descriptions. simpl.
  by rewrite lookup_insert_eq, H.
Qed.

Lemma load_descriptions_same (E : env) (p : string) (w : world) :
  Search.load_descriptions E p w = Index.load_descriptions E p w.
Proof.
  unfold Search.load_descriptions, Index.load_descriptions.
  by destruct (files w !! p).
Qed.

(** * Ingestion *)

Lemma truthy_spec (s : string) : truthy s = true <-> s <> EmptyString.
Proof. by destruct s. Qed.

Lemma get_image_description_world (E : env) (x : string) (w : world) :
  (Index.get_image_description E x w).2
  = World (files w) (folders w) (calls w ++ [x]).
Proof.
  unfold Index.get_image_description. by destruct (vision E _ x).
Qed.

Lemma get_image_description_failed (E : env) (x : string) (w : world) (e : exn) :
  vision E (length (calls w)) x = Raise e ->
  (Index.get_image_description E x w).1 = EmptyString.
Proof. unfold Index.get_image_description. by intros ->. Qed.

Lemma index_step_skip (E : env) (d : gmap string string) (n : nat) (w : world)
    (x : string) :
  is_Some (d !! x) -> Index.index_step E (d, n, w) x = (d, n, w).
Proof.
  intros H. unfold Index.index_step, dict_in.
  by rewrite bool_decide_eq_true_2.
Qed.

(** One iteration, by cases: the item is skipped, described and stored, or
    described without success. *)
Lemma index_step_cases (E : env) (d : gmap string string) (n : nat) (w : world)
    (x : string) :
  (is_Some (d !! x) /\ Index.index_step E (d, n, w) x = (d, n, w)) \/
  (d !! x = None /\
   exists desc, desc <> EmptyString /\
     (Index.get_image_description E x w).1 = desc /\
     Index.index_step E (d, n, w) x
     = (<[x := desc]> d, S n, World (files w) (folders w) (calls w ++ [x]))) \/
  (d !! x = None /\
   (Index.get_image_description E x w).1 = EmptyString /\
   Index.index_step E (d, n, w) x
   = (d, n, World (files w) (folders w) (calls w ++ [x]))).
Proof.
  unfold Index.index_step. destruct (dict_in x d) eqn:Hin.
  - left. split; [|done]. by apply bool_decide_eq_true in Hin.
  - right. apply dict_in_false in Hin.
    pose proof (get_image_description_world E x w) as Hw.
    destruct (Index.get_image_description E x w) as [desc w']. simpl in Hw.
    subst w'. destruct (truthy desc) eqn:Ht.
    + left. split; [done|]. exists desc. by apply truthy_spec in Ht.
    + right. by destruct desc.
Qed.

Lemma index_loop_cons (E : env) (x : string) (l : list string)
    (st : gmap string string * nat * world) :
  Index.index_loop E (x :: l) st = Index.index_loop E l (Index.index_step E st x).
Proof. reflexivity. Qed.

Lemma index_step_store_ok (E : env) (d : gmap string string) (n : nat)
    (w : world) (x : string) :
  store_ok d -> store_ok (Index.index_step E (d, n, w) x).1.1.
Proof.
  intros Hd.
  destruct (index_step_cases E d n w x)
    as [[_ ->]|[(_ & desc & Hne & _ & ->)|(_ & _ & ->)]]; simpl; try done.
  intros k v. destruct (decide (x = k)) as [->|Hk].
  - rewrite lookup_insert_eq. by intros [= <-].
  - rewrite lookup_insert_ne by done. apply Hd.
Qed.

Lemma index_loop_store_ok (E : env) (image_files : list string)
    (d : gmap string string) (n : nat) (w : world) :
  store_ok d -> store_ok (Index.index_loop E image_files (d, n, w)).1.1.
Proof.
  revert d n w. induction image_files as [|x l IH]; intros d n w Hd; [done|].
  rewrite index_loop_cons.
  pose proof (index_step_store_ok E d n w x Hd) as H.
  destruct (Index.index_step E (d, n, w) x) as [[d' n'] w']. by apply IH.
Qed.

(** What a batch does to a store and to the call log: the entries it found
    stay as they were, files and folders are untouched, and the calls it adds
    are for candidates that were not keys. *)
Lemma index_loop_effect (E : env) (image_files : list string)
    (d : gmap string string) (n : nat) (w : world) :
  exists d' n' new,
    Index.index_loop E image_files (d, n, w)
    = (d', n', World (files w) (folders w) (calls w ++ new)) /\
    (forall x v, d !! x = Some v -> d' !! x = Some v) /\
    (forall x, x ∈ new -> x ∈ image_files /\ d !! x = None) /\
    (forall x, x ∈ image_files -> d' !! x = None -> x ∈ new).
Proof.
  revert d n w. induction image_files as [|x l IH]; intros d n w.
  - exists d, n, []. unfold Index.index_loop. simpl. rewrite app_nil_r.
    destruct w. split; [done|]. split; [done|].
    split; intros x H; by apply elem_of_nil in H.
  - rewrite index_loop_cons.
    destruct (index_step_cases E d n w x)
      as [[Hin ->]|[(Hnone & desc & Hne & _ & ->)|(Hnone & _ & ->)]].
    + destruct (IH d n w) as (d' & n' & new & -> & Hkeep & Hnew & Hmiss).
      exists d', n', new. split; [done|]. split; [done|]. split.
      * intros y Hy. split; [|by apply Hnew]. apply elem_of_cons. right. by apply Hnew.
      * intros y [->|Hy]%elem_of_cons Hy'; [|by apply Hmiss].
        destruct Hin as [v Hv]. apply Hkeep in Hv. congruence.
    + destruct (IH (<[x := desc]> d) (S n)
                   (World (files w) (folders w) (calls w ++ [x])))
        as (d' & n' & new & -> & Hkeep & Hnew & Hmiss). simpl.
      exists d', n', (x :: new). rewrite <- app_assoc.
      split; [done|]. split; [|split].
      * intros y v Hy. apply Hkeep. rewrite lookup_insert_ne; [done|congruence].
      * intros y [->|H]%elem_of_cons; [split; [by left|done]|].
        destruct (Hnew _ H) as [Hin Hy]. split; [by right|].
        destruct (decide (x = y)) as [->|Hd].
        -- by rewrite lookup_insert_eq in Hy.
        -- by rewrite lookup_insert_ne in Hy.
      * intros y [->|Hy]%elem_of_cons Hy'; [by left|]. right. by apply Hmiss.
    + destruct (IH d n (World (files w) (folders w) (calls w ++ [x])))
        as (d' & n' & new & -> & Hkeep & Hnew & Hmiss). simpl.
      exists d', n', (x :: new). rewrite <- app_assoc.
      split; [done|]. split; [done|]. split.
      * intros y [->|H]%elem_of_cons; [split; [by left|done]|].
        destruct (Hnew _ H) as [Hin Hy]. split; [by right|done].
      * intros y [->|Hy]%elem_of_cons Hy'; [by left|]. right. by apply Hmiss.
Qed.

Lemma index_loop_all_keys (E : env) (image_files : list string)
    (d : gmap string string) (n : nat) (w : world) :
  (forall x, x ∈ image_files -> is_Some (d !! x)) ->
  Index.index_loop E image_files (d, n, w) = (d, n, w).
Proof.
  induction image_files as [|x l IH]; intros H; [done|].
  rewrite index_loop_cons, index_step_skip.
  - apply IH. intros y Hy. apply H. by right.
  - apply H. by left.
Qed.

Lemma index_screenshots_none (E : env) (folder out : string) (w : world) :
  folders w !! folder = Some [] -> Index.index_screenshots E folder out w = w.
Proof. unfold Index.index_screenshots. by intros ->. Qed.

Lemma index_screenshots_run (E : env) (folder out : string) (w : world)
    (image_files : list string) :
  folders w !! folder = Some image_files -> image_files <> [] ->
  Index.index_screenshots E folder out w =
  Index.save_descriptions E
    (Index.index_loop E image_files (Index.load_descriptions E out w, 0%nat, w)).1.1
    out
    (Index.index_loop E image_files (Index.load_descriptions E out w, 0%nat, w)).2.
Proof.
  unfold Index.index_screenshots. intros -> Hne.
  destruct image_files as [|x l]; [done|].
  by destruct (Index.index_loop E (x :: l) _) as [[d' n'] w'].
Qed.

(** * Identifiers *)

(** The identifier after an ordinal: when the stripped left part is
    [N ++ ". " ++ name] and [N] has no ['.'], the line names [name]. *)
Lemma names_ordinal (left N name : string) :
  Str.strip left = N +:+ ". " +:+ name -> ~ has_char "." N -> names left name.
Proof.
  intros Heq HN. left. exists N. split; [done|].
  intros a' b' Heq'. rewrite Heq in Heq'.
  destruct (Nat.le_gt_cases (String.length N) (String.length a')) as [|Hlt]; [done|].
  destruct HN. clear Heq. revert a' Heq' Hlt.
  induction N as [|c N IH]; intros a' Heq' Hlt; simpl in Hlt; [lia|].
  destruct a' as [|c' a'].
  - rewrite str_app_nil_l in Heq'. change (". " +:+ b') with (String "." (" " +:+ b')) in Heq'.
    rewrite str_app_cons in Heq'. injection Heq' as -> _.
    apply has_char_cons. by left.
  - rewrite !str_app_cons in Heq'. injection Heq' as -> Heq'.
    apply has_char_cons. right. apply (IH a'); [done|]. simpl in Hlt. lia.
Qed.

Lemma no_char (c : ascii) (s : string) :
  Str.contains (String c EmptyString) s = false -> ~ has_char c s.
Proof. intros H Hc. apply contains_spec in Hc. congruence. Qed.

Lemma names_fun (left f g : string) : names left f -> names left g -> f = g.
Proof.
  intros Hf Hg. apply filename_names in Hf, Hg. congruence.
Qed.

Lemma names_total (left : string) : exists f, names left f.
Proof.
  destruct (filename_total (Str.strip left)) as [f Hf].
  exists f. by apply filename_names.
Qed.

(** * Decimal numerals *)

Lemma pretty_N_char_decimal (d : N) :
  (d < 10)%N ->
  Str.isdecimal (pretty_N_char d) = true /\
  Z.of_N (Str.code (pretty_N_char d)) - 48 = Z.of_N d.
Proof.
  intros H.
  assert (d = 0 \/ d = 1 \/ d = 2 \/ d = 3 \/ d = 4 \/ d = 5 \/ d = 6 \/ d = 7
          \/ d = 8 \/ d = 9)%N as Hd by lia.
  repeat (destruct Hd as [->|Hd]; [by vm_compute|]). subst d. by vm_compute.
Qed.

(** Reading the numeral of [x] followed by [s] is reading [s] from [x]. *)
Lemma int_from_pretty_go (x : N) (s : string) :
  Str.int_from 0 (pretty_N_go x s) = Str.int_from (Z.of_N x) s.
Proof.
  revert s. induction (N.lt_wf_0 x) as [x _ IH]; intros s.
  destruct (decide (x = 0)%N) as [->|Hx]; [by rewrite pretty_N_go_0|].
  rewrite pretty_N_go_step by lia.
  rewrite IH by (apply N.div_lt; lia). simpl.
  destruct (pretty_N_char_decimal (x `mod` 10)) as [-> ->].
  { apply N.mod_lt. lia. }
  f_equal. pose proof (N.div_mod x 10). lia.
Qed.

Lemma pretty_N_go_cons (x : N) (s : string) :
  s <> EmptyString -> pretty_N_go x s <> EmptyString.
Proof.
  revert s. induction (N.lt_wf_0 x) as [x _ IH]; intros s Hs.
  destruct (decide (x = 0)%N) as [->|Hx]; [by rewrite pretty_N_go_0|].
  rewrite pretty_N_go_step by lia. apply IH; [apply N.div_lt; lia|done].
Qed.

Lemma int_pretty_N (x : N) : Str.int (pretty x) = Ret (Z.of_N x).
Proof.
  unfold pretty, pretty_N. destruct (decide (x = 0)%N) as [->|Hx]; [done|].
  rewrite pretty_N_go_step by lia.
  pose proof (pretty_N_go_cons (x `div` 10)
                (String (pretty_N_char (x `mod` 10)) EmptyString)) as Hne.
  pose proof (int_from_pretty_go x EmptyString) as Hint.
  rewrite pretty_N_go_step in Hint by lia.
  destruct (pretty_N_go _ _); [by destruct Hne|]. exact Hint.
Qed.

(** [int] reads back the decimal numeral of a non-negative integer. *)
Lemma int_pretty (n : Z) : 0 <= n -> Str.int (pretty n) = Ret n.
Proof.
  intros Hn. destruct n as [|p|p]; [done| |lia].
  change (pretty (Z.pos p)) with (pretty (N.pos p)). by rewrite int_pretty_N.
Qed.

(** A string [int] reads is made of decimal digits. *)
Lemma int_from_chars (s : string) (acc n : Z) :
  Str.int_from acc s = Ret n ->
  forall c, has_char c s -> Str.isdecimal c = true.
Proof.
  revert acc. induction s as [|a s IH]; intros acc H c Hc.
  - by apply has_char_nil in Hc.
  - simpl in H. destruct (Str.isdecimal a) eqn:Ha; [|done].
    apply has_char_cons in Hc as [<-|Hc]; [done|]. by eapply IH.
Qed.

Lemma int_chars (s : string) (n : Z) :
  Str.int s = Ret n ->
  s <> EmptyString /\ forall c, has_char c s -> Str.isdecimal c = true.
Proof.
  destruct s as [|a s]; [done|]. intros H. split; [done|].
  by eapply int_from_chars.
Qed.

Lemma filter_all (p : ascii -> bool) (s : string) :
  (forall c, has_char c s -> p c = true) -> Str.filter p s = s.
Proof.
  induction s as [|a s IH]; intros H; [done|]. simpl.
  rewrite (H a) by (apply has_char_cons; by left).
  rewrite IH; [done|]. intros c Hc. apply H, has_char_cons. by right.
Qed.

Lemma isdecimal_isdigit (c : ascii) :
  Str.isdecimal c = true -> Str.isdigit c = true.
Proof. unfold Str.isdigit. by intros ->. Qed.

Lemma rstrip_app (a f : string) :
  Str.rstrip f = f -> f <> EmptyString -> Str.rstrip (a +:+ f) = a +:+ f.
Proof.
  intros Hf Hne. induction a as [|c a IH]; [done|].
  rewrite str_app_cons. simpl. rewrite IH.
  destruct (a +:+ f) eqn:Heq; [|done].
  destruct a; [|done]. rewrite str_app_nil_l in Heq. done.
Qed.


(** The ranker's own guard: called with an empty store it returns the empty
    list, without calling the model. *)
Lemma search_screenshots_empty_store (client : string -> res string)
    (query : string) (k : Z) :
  Search.search_screenshots client query ∅ k = Ret [].
Proof. done. Qed.

(** * The JSON instance reads back what it writes *)

Lemma read_escape_char (c : ascii) (t : string) :
  Json.read_string (Json.escape_char c +:+ t)
  = Json.push c (Json.read_string t).
Proof. destruct c as [[] [] [] [] [] [] [] []]; reflexivity. Qed.

Lemma read_escape (s rest : string) :
  Json.read_string (Json.escape s +:+ String Json.dquote rest) = Some (s, rest).
Proof.
  induction s as [|c s IH]; [done|].
  simpl Json.escape. rewrite str_app_assoc, read_escape_char, IH. done.
Qed.

Lemma read_encoded (s rest : string) :
  Json.read_string (Json.escape s +:+ String Json.dquote EmptyString +:+ rest)
  = Some (s, rest).
Proof. apply read_escape. Qed.

Lemma join_members (l : list (string * string)) (a tail : string) :
  foldl (fun acc y => acc +:+ "," +:+ String newline (Json.item y)) a l
  +:+ String newline (String "}" tail)
  = a +:+ match l with
          | [] => String newline (String "}" tail)
          | _ :: _ => String "," (String newline (Json.members_text l tail))
          end.
Proof.
  revert a. induction l as [|y l IH]; intros a; [done|].
  simpl foldl. rewrite IH. rewrite !str_app_assoc. by f_equal.
Qed.

Lemma dump_members (x : string * string) (l : list (string * string)) :
  "{" +:+ String newline
    (foldl (fun acc y => acc +:+ "," +:+ String newline (Json.item y))
           (Json.item x) l)
  +:+ String newline "}"
  = String "{" (String newline (Json.members_text (x :: l) EmptyString)).
Proof.
  change (String newline "}") with (String newline (String "}" EmptyString)).
  rewrite (str_app_cons "{" EmptyString), str_app_nil_l. f_equal.
  rewrite str_app_cons. f_equal. apply join_members.
Qed.

Lemma item_text (k v M : string) :
  Json.item (k, v) +:+ M
  = String " " (String " " (String Json.dquote
      (Json.escape k +:+ String Json.dquote
         (String ":" (String " " (String Json.dquote
            (Json.escape v +:+ String Json.dquote M))))))).
Proof.
  unfold Json.item, Json.encode_string. cbn [fst snd].
  repeat (rewrite str_app_cons || rewrite str_app_nil_l || rewrite str_app_assoc).
  reflexivity.
Qed.

Lemma read_member_step (fuel : nat) (k v M : string) (acc : gmap string string) :
  Json.read_members (S fuel) (String newline (Json.item (k, v) +:+ M)) acc
  = match Json.skip_ws M with
    | String x s6 =>
        if Ascii.eqb x ","%char
        then Json.read_members fuel s6 (<[k := v]> acc)
        else if Ascii.eqb x "}"%char
        then Some (<[k := v]> acc, s6)
        else None
    | EmptyString => None
    end.
Proof.
  rewrite item_text. cbn [Json.read_members].
  change (Json.skip_ws (String newline (String " " (String " "
            (String Json.dquote ?t))))) with (String Json.dquote t).
  change (negb (Json.dquote =? Json.dquote)%char) with false. cbv iota.
  rewrite read_escape.
  change (Json.skip_ws (String ":" ?t)) with (String ":"%char t).
  change (negb (":" =? ":")%char) with false. cbv iota.
  change (Json.skip_ws (String " " (String Json.dquote ?t)))
    with (String Json.dquote t).
  change (negb (Json.dquote =? Json.dquote)%char) with false. cbv iota.
  rewrite read_escape. reflexivity.
Qed.

Lemma read_members_spec (l : list (string * string)) (fuel : nat)
    (acc : gmap string string) (tail : string) :
  l <> [] -> (length l <= fuel)%nat ->
  Json.read_members fuel (String newline (Json.members_text l tail)) acc
  = Some (foldl Json.put acc l, tail).
Proof.
  revert fuel acc. induction l as [|[k v] l IH]; intros fuel acc Hne Hfuel; [done|].
  destruct fuel as [|fuel]; [simpl in Hfuel; lia|].
  cbn [Json.members_text]. rewrite read_member_step.
  destruct l as [|y l]; [reflexivity|].
  change (Json.skip_ws (String "," ?t)) with (String ","%char t).
  change ("," =? ",")%char with true. cbv iota.
  rewrite IH; [done|done|]. simpl in *. lia.
Qed.

Lemma foldl_put_lookup (l : list (string * string)) (acc : gmap string string)
    (k : string) :
  NoDup l.*1 ->
  foldl Json.put acc l !! k
  = match (list_to_map l : gmap string string) !! k with
    | Some v => Some v
    | None => acc !! k
    end.
Proof.
  revert acc. induction l as [|[k0 v0] l IH]; intros acc Hnd; [done|].
  apply NoDup_cons in Hnd as [Hk0 Hnd]. simpl foldl. rewrite IH by done.
  unfold Json.put. cbn [fst snd]. simpl list_to_map.
  destruct (decide (k0 = k)) as [->|Hk].
  - rewrite lookup_insert_eq.
    rewrite (not_elem_of_list_to_map_1 l k) by done.
    by rewrite lookup_insert_eq.
  - rewrite (lookup_insert_ne (list_to_map l)) by done.
    destruct (_ !! k); [done|]. by rewrite lookup_insert_ne.
Qed.

Lemma foldl_put_map (m : gmap string string) :
  foldl Json.put ∅ (map_to_list m) = m.
Proof.
  apply map_eq. intros k.
  rewrite foldl_put_lookup by apply NoDup_fst_map_to_list.
  rewrite list_to_map_to_list, lookup_empty. by destruct (m !! k).
Qed.

Lemma str_length_app (a b : string) :
  String.length (a +:+ b) = (String.length a + String.length b)%nat.
Proof.
  induction a as [|c a IH]; [done|]. rewrite str_app_cons. simpl. by rewrite IH.
Qed.

Lemma members_text_length (l : list (string * string)) (tail : string) :
  (length l <= String.length (Json.members_text l tail))%nat.
Proof.
  induction l as [|[k v] l IH]; [simpl; lia|].
  cbn [Json.members_text]. rewrite item_text.
  destruct l as [|y l]; [simpl; lia|].
  remember (Json.members_text (y :: l) tail) as M eqn:HM. clear HM.
  cbn [String.length]. rewrite str_length_app. cbn [String.length].
  rewrite str_length_app. cbn [String.length]. cbn [length] in *. lia.
Qed.

(** Reading a dump gives the map back. *)
Lemma json_roundtrip (m : gmap string string) :
  Json.load (Json.dump m) = Some m.
Proof.
  unfold Json.dump. destruct (map_to_list m) as [|x l] eqn:Hl.
  - apply map_to_list_empty_iff in Hl as ->. reflexivity.
  - rewrite dump_members. unfold Json.load.
    change (Json.skip_ws (String "{" ?t)) with (String "{"%char t).
    change (negb ("{" =? "{")%char) with false. cbv iota.
    destruct x as [k v]. cbn [Json.members_text]. rewrite item_text.
    change (Json.skip_ws (String newline (String " " (String " "
              (String Json.dquote ?t))))) with (String Json.dquote t).
    change (Json.dquote =? "}")%char with false. cbv iota.
    rewrite <- item_text.
    change (Json.item (k, v) +:+ _) with (Json.members_text ((k, v) :: l) EmptyString).
    rewrite read_members_spec.
    + change (Json.at_end EmptyString) with true. cbv iota.
      rewrite <- Hl. by rewrite foldl_put_map.
    + done.
    + pose proof (members_text_length ((k, v) :: l) EmptyString) as Hlen.
      remember (Json.members_text ((k, v) :: l) EmptyString) as M eqn:HM. clear HM.
      cbn [String.length]. lia.
Qed.

Lemma demo_codec_ok (v : nat -> string -> res string) : codec_ok (Demo.E v).
Proof. intros m. apply json_roundtrip. Qed.

(** * Uploads *)

Lemma store_ok_insert (d : gmap string string) (k v : string) :
  store_ok d -> truthy v = true -> store_ok (<[k := v]> d).
Proof.
  intros Hd Hv k' v'. destruct (decide (k = k')) as [->|Hk].
  - rewrite lookup_insert_eq. intros [= <-]. by apply truthy_spec.
  - rewrite lookup_insert_ne by done. apply Hd.
Qed.

Lemma upload_step_store_ok (E : env) (results : list App.upload_result)
    (d : gmap string string) (present : gset string) (w : world)
    (name : string) :
  store_ok d ->
  store_ok (App.upload_step E (results, d, present, w) name).1.1.2 /\
  files (App.upload_step E (results, d, present, w) name).2 = files w.
Proof.
  intros Hd. unfold App.upload_step.
  destruct (truthy name && App.allowed_file E name); [|done].
  destruct (bool_decide _); [done|].
  pose proof (get_image_description_world E
                (App.path_join App.UPLOAD_FOLDER (secure_filename E name)) w) as Hw.
  destruct (Index.get_image_description E _ w) as [desc w']. simpl in Hw.
  subst w'. destruct (truthy desc) eqn:Ht; [|done].
  split; [|done]. by apply store_ok_insert.
Qed.

Lemma upload_loop_store_ok (E : env) (names : list string)
    (results : list App.upload_result) (d : gmap string string)
    (present : gset string) (w : world) :
  store_ok d ->
  store_ok (foldl (App.upload_step E) (results, d, present, w) names).1.1.2 /\
  files (foldl (App.upload_step E) (results, d, present, w) names).2 = files w.
Proof.
  revert results d present w.
  induction names as [|name l IH]; intros results d present w Hd; [done|].
  change (foldl (App.upload_step E) (results, d, present, w) (name :: l))
    with (foldl (App.upload_step E)
            (App.upload_step E (results, d, present, w) name) l).
  destruct (upload_step_store_ok E results d present w name Hd) as [Hd' Hf].
  destruct (App.upload_step E (results, d, present, w) name)
    as [[[results' d'] present'] w'].
  simpl in Hd', Hf. rewrite <- Hf. by apply IH.
Qed.

(** * The ranking-reply parser *)


(** C2, as amended: a line [left : mid] or [left : mid : ...] (no [':'] in
    [left] or [mid]) names the identifier that follows the first [". "] of
    the stripped [left] (all of it when there is none), so a leading ordinal
    ["N. "] is taken off; its confidence is the decimal number made of the
    digit characters of [mid], the text between the first [':'] and the next
    (when those digits are the numeral of [n], the confidence is [n]); when
    [mid] has no digit the line is dropped and the loop goes on. *)
Theorem C2_line_extraction (d : gmap string string) (left mid rest : string) :
  ~ has_char colon left -> ~ has_char colon mid ->
  (rest = EmptyString \/ exists r, rest = String colon r) ->
  (exists f, names left f /\
     line_hit d (left +:+ String colon (mid +:+ rest)) =
     match Str.int (Str.filter Str.isdigit mid), d !! f with
     | Ret n, Some desc => Some (f, desc, n)
     | _, _ => None
     end) /\
  (forall N name,
     Str.strip left = N +:+ ". " +:+ name -> ~ has_char "." N ->
     names left name) /\
  (forall n,
     0 <= n -> Str.filter Str.isdigit mid = pretty n ->
     Str.int (Str.filter Str.isdigit mid) = Ret n) /\
  (Str.filter Str.isdigit mid = EmptyString ->
   line_hit d (left +:+ String colon (mid +:+ rest)) = None /\
   forall acc more,
     Search.parse_lines d ((left +:+ String colon (mid +:+ rest)) :: more) acc
     = Search.parse_lines d more acc).
Proof.
  intros Hl Hm Hrest. split; [|split; [|split]].
  - destruct (names_total left) as [f Hf]. exists f. split; [done|].
    destruct (Str.int _) as [n|e] eqn:Hn.
    + destruct (d !! f) as [desc|] eqn:Hd.
      * apply line_hit_spec. exists left, mid, rest, f, desc, n. by repeat split.
      * destruct (line_hit d _) as [h|] eqn:Hh; [|done].
        apply line_hit_spec in Hh
          as (l' & m' & r' & f' & desc' & n' & Heq & Hl' & Hm' & Hr' & Hf' & _ & Hd' & _).
        assert (l' = left) as ->.
        { pose proof (split_shape left mid rest Hl Hm Hrest) as [tl1 H1].
          pose proof (split_shape l' m' r' Hl' Hm' Hr') as [tl2 H2].
          rewrite Heq in H1. congruence. }
        rewrite (names_fun _ _ _ Hf' Hf) in Hd'. congruence.
    + destruct (line_hit d _) as [h|] eqn:Hh; [|done].
      apply line_hit_spec in Hh
        as (l' & m' & r' & f' & desc' & n' & Heq & Hl' & Hm' & Hr' & _ & Hn' & _ & _).
      assert (m' = mid) as ->.
      { pose proof (split_shape left mid rest Hl Hm Hrest) as [tl1 H1].
        pose proof (split_shape l' m' r' Hl' Hm' Hr') as [tl2 H2].
        rewrite Heq in H1. congruence. }
      congruence.
  - apply names_ordinal.
  - intros n Hn ->. by apply int_pretty.
  - intros Hnil.
    assert (Hb : forall acc, Search.line_body d (left +:+ String colon (mid +:+ rest)) acc
                             = Raise ValueError).
    { intros acc. rewrite line_body_shape by done. unfold_bind.
      destruct (filename_total (Str.strip left)) as [f ->]. by rewrite Hnil. }
    split.
    + unfold line_hit. rewrite Hb. by destruct (Search.candidate _).
    + intros acc more. simpl. rewrite Hb. by destruct (Search.candidate _).
Qed.

Lemma C2_line_extraction_witness :
  line_hit Demo.store "1. login.png: 87" = Some ("login.png", "a login form", 87).
Proof.
  destruct (C2_line_extraction Demo.store "1. login.png" " 87" EmptyString)
    as [(f & Hf & Hhit) [Hord _]].
  - by apply no_char.
  - by apply no_char.
  - by left.
  - assert (names "1. login.png" "login.png") as Hn.
    { apply (Hord "1" "login.png"); [done|].
      by apply no_char. }
    rewrite (names_fun _ _ _ Hf Hn) in Hhit. exact Hhit.
Defined.

(** C2 as first stated fails: the confidence is not read from everything
    after the first [':'] (a second [':'] ends the score part), and the text
    taken off the left part need not be an ordinal. *)
Lemma C2_counterexample :
  line_hit {[ "a.png" := "d" ]} "1. a.png: 8:7" = Some ("a.png", "d", 8) /\
  Spec.line_hit {[ "a.png" := "d" ]} "1. a.png: 8:7" = Some ("a.png", "d", 87) /\
  line_hit {[ "my. a.png" := "d" ]} "my. a.png: 90" = None /\
  Spec.line_hit {[ "my. a.png" := "d" ]} "my. a.png: 90"
  = Some ("my. a.png", "d", 90).
Proof. by vm_compute. Qed.

(** C3: every triple [search_screenshots] returns has an identifier that is a
    key of the store passed in, with the store's description for that key; a
    reply line naming an identifier that is not a key yields nothing and no
    error. *)
Theorem C3_identifiers_from_store (client : string -> res string)
    (query : string) (d : gmap string string) (top_k : Z) :
  (exists r, Search.search_screenshots client query d top_k = Ret r /\
             Forall (fun h : Search.hit => d !! h.1.1 = Some h.1.2) r) /\
  (forall line h, line_hit d line = Some h -> d !! h.1.1 = Some h.1.2) /\
  Search.search_screenshots (Demo.answer "ghost.png: 90") "login" Demo.store 5
  = Ret [].
Proof.
  assert (Hwf : forall line (h : Search.hit),
             well_formed d line h -> d !! h.1.1 = Some h.1.2).
  { by intros line h (left & mid & rest & f & desc & n & _ & _ & _ & _ & _ & _ & Hd & ->). }
  split; [by apply search_Forall|].
  split; [|by vm_compute].
  intros line h Hh. apply (Hwf line). by apply line_hit_spec.
Qed.

(** C4, as amended: the result is a prefix of the surviving triples in reply
    order, never re-sorted; for [top_k = k >= 0] it is their first [k] (all
    of them when there are fewer), so its length is at most [k]. (A negative
    [k] instead drops the last [-k] triples.) *)
Theorem C4_reply_order_truncated (client : string -> res string)
    (query : string) (d : gmap string string) (k : Z) :
  exists r,
    Search.search_screenshots client query d k = Ret r /\
    (0 <= k -> Z.of_nat (length r) <= k) /\
    (forall text,
       dict_empty d = false ->
       client (Search.search_prompt query d k) = Ret text ->
       r = slice_to (survivors d text) k /\
       r `prefix_of` survivors d text /\
       (0 <= k -> r = take (Z.to_nat k) (survivors d text)) /\
       (k < 0 ->
        r = take (length (survivors d text) - Z.to_nat (- k)) (survivors d text))) /\
    Search.search_screenshots
      (Demo.answer ("login.png: 10" +:+ String newline "login.png: 90"))
      "login" Demo.store 5
    = Ret [("login.png", "a login form", 10); ("login.png", "a login form", 90)].
Proof.
  rewrite search_screenshots_spec. eexists. split; [done|].
  split; [|split; [|by vm_compute]].
  - intros Hk. destruct (dict_empty d); [simpl; lia|].
    destruct (client _); [by apply slice_to_length|simpl; lia].
  - intros text -> ->. split; [done|]. split; [apply slice_to_prefix|].
    split.
    + apply slice_to_nonneg.
    + intros Hk. unfold slice_to. by rewrite (proj2 (Z.leb_gt 0 k) Hk).
Qed.

(** C4 as first stated fails for a negative [top_k]: with [top_k = -1] and
    two surviving lines the result has one entry, and 1 is not at most -1. *)
Lemma C4_counterexample :
  exists r,
    Search.search_screenshots
      (Demo.answer ("login.png: 87" +:+ String newline "login.png: 80"))
      "login" Demo.store (-1) = Ret r /\
    ~ (Z.of_nat (length r) <= -1).
Proof.
  exists [("login.png", "a login form"%string, 87)]. split; [by vm_compute|].
  simpl. lia.
Qed.

(** C9: every confidence [search_screenshots] returns is a non-negative
    integer; a score written [-5] is read as 5, and 150 passes through. *)
Theorem C9_confidence_nonnegative (client : string -> res string)
    (query : string) (d : gmap string string) (top_k : Z) :
  (exists r, Search.search_screenshots client query d top_k = Ret r /\
             Forall (fun h : Search.hit => 0 <= h.2) r) /\
  Search.search_screenshots (Demo.answer "login.png: -5") "login" Demo.store 5
  = Ret [("login.png", "a login form", 5)] /\
  Search.search_screenshots (Demo.answer "login.png: 150") "login" Demo.store 5
  = Ret [("login.png", "a login form", 150)].
Proof.
  split; [|by vm_compute].
  apply search_Forall.
  intros line h (left & mid & rest & f & desc & n & _ & _ & _ & _ & _ & Hn & _ & ->).
  simpl. by eapply int_nonneg.
Qed.

(** C10: identifiers are not deduplicated: a reply with two well-formed lines
    naming the same key yields that identifier twice. *)
Theorem C10_no_deduplication :
  exists text,
    Search.search_screenshots (Demo.answer text) "login" Demo.store 5
    = Ret [("login.png", "a login form", 87); ("login.png", "a login form", 80)].
Proof.
  exists ("1. login.png: 87" +:+ String newline "2. login.png: 80").
  by vm_compute.
Qed.

(** * The description store *)

(** C5: for a mapping [m] that the persisted format represents
    ([json.load] reads back what [json.dump] writes for it) and every path
    [p], loading after saving yields [m], whatever was at [p] before: the
    file holds the dump of [m] and nothing else, and no other file changes.
    With the JSON writer and reader of this development every mapping is
    represented. *)
Theorem C5_save_load_roundtrip (E : env) (m : gmap string string) (p : string)
    (w : world) :
  (json_load E (json_dump E m) = Some m ->
   Index.load_descriptions E p (Index.save_descriptions E m p w) = m /\
   Search.load_descriptions E p (Index.save_descriptions E m p w) = m) /\
  files (Index.save_descriptions E m p w) !! p = Some (json_dump E m) /\
  (forall q, q <> p ->
     files (Index.save_descriptions E m p w) !! q = files w !! q) /\
  (forall v,
     Index.load_descriptions (Demo.E v) p
       (Index.save_descriptions (Demo.E v) m p w) = m).
Proof.
  split.
  { intros H. split; [by apply load_save|].
    rewrite load_descriptions_same. by apply load_save. }
  unfold Index.save_descriptions at 1 2. simpl.
  split; [apply lookup_insert_eq|].
  split; [intros q Hq; by apply lookup_insert_ne|].
  intros v. apply load_save, json_roundtrip.
Qed.

Lemma C5_save_load_roundtrip_witness :
  Index.load_descriptions (Demo.E Demo.failing) "index.json"
    (Index.save_descriptions (Demo.E Demo.failing) Demo.store "index.json"
       Demo.stale_world)
  = Demo.store.
Proof.
  destruct (C5_save_load_roundtrip (Demo.E Demo.failing) Demo.store
              "index.json" Demo.stale_world) as [H _].
  apply H. vm_compute. reflexivity.
Defined.

(** * Ingestion *)

(** C6, as amended: a candidate whose identifier is a key of the store is
    skipped by the batch loop and by [process_single_image]: its entry stays
    as it was and the describer is not called for it. A second run over the
    same candidates against the store the first run saved calls the describer
    only for candidates the first run left without an entry (those whose
    description failed); when every candidate has an entry it makes no call
    and changes nothing. *)
Theorem C6_indexed_items_skipped (E : env) (folder out : string) (w : world)
    (image_files : list string) :
  (forall d n w0 x,
     is_Some (d !! x) -> Index.index_step E (d, n, w0) x = (d, n, w0)) /\
  (forall d n w0, exists d' n' new,
     Index.index_loop E image_files (d, n, w0)
     = (d', n', World (files w0) (folders w0) (calls w0 ++ new)) /\
     forall x v, d !! x = Some v -> d' !! x = Some v /\ x ∉ new) /\
  (forall p file w0,
     is_Some (Index.load_descriptions E file w0 !! p) ->
     Index.process_single_image E p file w0 = (true, w0)) /\
  (folders w !! folder = Some image_files ->
   forall d1,
     d1 = (Index.index_loop E image_files
             (Index.load_descriptions E out w, 0%nat, w)).1.1 ->
     json_load E (json_dump E d1) = Some d1 ->
     exists retried,
       calls (Index.index_screenshots E folder out
                (Index.index_screenshots E folder out w))
       = calls (Index.index_screenshots E folder out w) ++ retried /\
       (forall x, x ∈ retried -> x ∈ image_files /\ d1 !! x = None) /\
       ((forall x, x ∈ image_files -> is_Some (d1 !! x)) ->
        Index.index_screenshots E folder out
          (Index.index_screenshots E folder out w)
        = Index.index_screenshots E folder out w)).
Proof.
  split; [intros; by apply index_step_skip|].
  split.
  { intros d n w0.
    destruct (index_loop_effect E image_files d n w0)
      as (d' & n' & new & Heq & Hkeep & Hnew & _).
    exists d', n', new. split; [done|]. intros x v Hx. split; [by apply Hkeep|].
    intros Hin. apply Hnew in Hin as [_ Hin]. congruence. }
  split.
  { intros p file w0 Hin. unfold Index.process_single_image, dict_in.
    by rewrite bool_decide_eq_true_2. }
  intros Hfolder d1 Hd1 Hrt.
  destruct (decide (image_files = [])) as [->|Hne].
  { rewrite !(index_screenshots_none E folder out w) by done.
    exists []. rewrite app_nil_r. split; [done|]. split; [|done].
    intros x H. by apply elem_of_nil in H. }
  rewrite (index_screenshots_run E folder out w image_files) by done.
  destruct (index_loop_effect E image_files (Index.load_descriptions E out w) 0%nat w)
    as (d' & n' & new & Heq & _ & _ & _).
  rewrite Heq in Hd1 |- *. cbn [fst snd] in Hd1 |- *. subst d'.
  set (w1 := Index.save_descriptions E d1 out
               (World (files w) (folders w) (calls w ++ new))).
  assert (Hload : Index.load_descriptions E out w1 = d1) by (by apply load_save).
  rewrite (index_screenshots_run E folder out w1 image_files) by done.
  rewrite Hload.
  destruct (index_loop_effect E image_files d1 0%nat w1)
    as (d2 & n2 & retried & Heq2 & _ & Hnew2 & _).
  exists retried. rewrite Heq2. cbn [fst snd]. split; [done|]. split; [done|].
  intros Hall. rewrite (index_loop_all_keys E image_files d1 0%nat w1 Hall) in Heq2.
  assert (World (files w1) (folders w1) (calls w1 ++ retried) = w1
          /\ d2 = d1) as [-> ->] by (split; congruence).
  unfold Index.save_descriptions, w1. simpl. f_equal.
  by rewrite insert_insert_eq.
Qed.

Lemma C6_indexed_items_skipped_witness :
  Index.index_screenshots (Demo.E Demo.described) "shots" "index.json"
    (Index.index_screenshots (Demo.E Demo.described) "shots" "index.json"
       Demo.one_image)
  = Index.index_screenshots (Demo.E Demo.described) "shots" "index.json"
      Demo.one_image.
Proof.
  pose proof (C6_indexed_items_skipped (Demo.E Demo.described) "shots"
                "index.json" Demo.one_image ["shots/a.png"]) as (_ & _ & _ & H).
  assert (Hf : folders Demo.one_image !! "shots" = Some ["shots/a.png"])
    by (vm_compute; reflexivity).
  set (d1 := {[ "shots/a.png" := "a settings dialog" ]} : gmap string string).
  assert (Hd1 : d1 = (Index.index_loop (Demo.E Demo.described) ["shots/a.png"]
                        (Index.load_descriptions (Demo.E Demo.described)
                           "index.json" Demo.one_image, 0%nat,
                         Demo.one_image)).1.1)
    by (vm_compute; reflexivity).
  assert (Hrt : json_load (Demo.E Demo.described)
                  (json_dump (Demo.E Demo.described) d1) = Some d1)
    by (vm_compute; reflexivity).
  destruct (H Hf d1 Hd1 Hrt) as (retried & _ & _ & Hall).
  apply Hall. intros x ->%list_elem_of_singleton.
  exists "a settings dialog"%string. vm_compute; reflexivity.
Defined.

(** C6 as first stated fails: a candidate whose description failed on the
    first run has no entry, so the second run calls the describer for it
    again, and the store changes when that call succeeds. *)
Lemma C6_counterexample :
  calls (Index.index_screenshots (Demo.E Demo.failing) "shots" "index.json"
           Demo.one_image) = ["shots/a.png"] /\
  calls (Index.index_screenshots (Demo.E Demo.failing) "shots" "index.json"
           (Index.index_screenshots (Demo.E Demo.failing) "shots" "index.json"
              Demo.one_image)) = ["shots/a.png"; "shots/a.png"] /\
  Index.load_descriptions (Demo.E Demo.flaky) "index.json"
    (Index.index_screenshots (Demo.E Demo.flaky) "shots" "index.json"
       Demo.one_image) = ∅ /\
  Index.load_descriptions (Demo.E Demo.flaky) "index.json"
    (Index.index_screenshots (Demo.E Demo.flaky) "shots" "index.json"
       (Index.index_screenshots (Demo.E Demo.flaky) "shots" "index.json"
          Demo.one_image))
  = {[ "shots/a.png" := "a settings dialog" ]}.
Proof. vm_compute. done. Qed.

(** C7: every operation that writes the store keeps the store invariant
    (every key has a non-empty description): each loop iteration, the whole
    batch, [process_single_image] and the upload handler keep it, and what
    they write to disk is the dump of a store that has it; a describe attempt
    that fails (the client raises, or the description is empty) creates and
    modifies no entry, only the call is logged, and the loop goes on with the
    remaining candidates. *)
Theorem C7_store_invariant (E : env) :
  (forall d n w x,
     store_ok d -> store_ok (Index.index_step E (d, n, w) x).1.1) /\
  (forall image_files d n w,
     store_ok d -> store_ok (Index.index_loop E image_files (d, n, w)).1.1) /\
  (forall x w e,
     vision E (length (calls w)) x = Raise e ->
     (Index.get_image_description E x w).1 = EmptyString) /\
  (forall d n w x more,
     d !! x = None ->
     (Index.get_image_description E x w).1 = EmptyString ->
     Index.index_step E (d, n, w) x
     = (d, n, World (files w) (folders w) (calls w ++ [x])) /\
     Index.index_loop E (x :: more) (d, n, w)
     = Index.index_loop E more
         (d, n, World (files w) (folders w) (calls w ++ [x]))) /\
  (forall folder out w,
     store_ok (Index.load_descriptions E out w) ->
     files (Index.index_screenshots E folder out w) = files w \/
     exists d', store_ok d' /\
       files (Index.index_screenshots E folder out w)
       = <[out := json_dump E d']> (files w)) /\
  (forall p file w,
     store_ok (Index.load_descriptions E file w) ->
     files (Index.process_single_image E p file w).2 = files w \/
     exists d', store_ok d' /\
       files (Index.process_single_image E p file w).2
       = <[file := json_dump E d']> (files w)) /\
  (forall request_files present w,
     store_ok (Index.load_descriptions E App.DESCRIPTIONS_FILE w) ->
     files (App.upload_files E request_files present w).2 = files w \/
     exists d', store_ok d' /\
       files (App.upload_files E request_files present w).2
       = <[App.DESCRIPTIONS_FILE := json_dump E d']> (files w)).
Proof.
  split; [intros; by apply index_step_store_ok|].
  split; [intros; by apply index_loop_store_ok|].
  split; [intros; by eapply get_image_description_failed|].
  split.
  { intros d n w x more Hd Hfail.
    assert (Hstep : Index.index_step E (d, n, w) x
                    = (d, n, World (files w) (folders w) (calls w ++ [x]))).
    { destruct (index_step_cases E d n w x)
        as [[[v Hv] _]|[(_ & desc & Hne & Hdesc & _)|(_ & _ & ->)]];
        [congruence|congruence|done]. }
    split; [done|]. by rewrite index_loop_cons, Hstep. }
  split; [|split].
  - intros folder out w Hok. unfold Index.index_screenshots.
    destruct (folders w !! folder) as [image_files|]; [|by left].
    destruct image_files as [|x l]; [by left|]. right.
    pose proof (index_loop_store_ok E (x :: l) _ 0%nat w Hok) as Hok'.
    destruct (index_loop_effect E (x :: l) (Index.load_descriptions E out w) 0%nat w)
      as (d' & n' & new & Heq & _). rewrite Heq in Hok' |- *.
    exists d'. split; [done|]. done.
  - intros p file w Hok. unfold Index.process_single_image.
    destruct (dict_in p _); [by left|].
    pose proof (get_image_description_world E p w) as Hw.
    destruct (Index.get_image_description E p w) as [desc w']. simpl in Hw.
    subst w'. destruct (truthy desc) eqn:Ht; [|by left]. right.
    exists (<[p := desc]> (Index.load_descriptions E file w)). split; [|done].
    by apply store_ok_insert.
  - intros request_files present w Hok. unfold App.upload_files.
    destruct request_files as [names|]; [|by left].
    destruct names as [|first l]; [by left|].
    destruct (truthy first); [|by left]. right. simpl negb. cbv iota.
    destruct (upload_loop_store_ok E (first :: l) [] _ present w Hok) as [Hd Hf].
    destruct (foldl _ _ _) as [[[results d'] present'] w'].
    simpl in Hd, Hf. exists d'. split; [done|].
    unfold Index.save_descriptions. simpl. by rewrite Hf.
Qed.

Lemma C7_store_invariant_witness :
  store_ok
    (Index.index_loop (Demo.E Demo.flaky) ["shots/a.png"; "shots/b.png"]
       (Demo.store, 0%nat, Demo.empty_world)).1.1.
Proof.
  destruct (C7_store_invariant (Demo.E Demo.flaky)) as (_ & H & _).
  apply H. unfold Demo.store. intros k v [<- <-]%lookup_singleton_Some. done.
Defined.

(** * The search operations *)



(** * More on the prompt and on the lines of a reply *)

Lemma occurs_refl (x : string) : occurs x x.
Proof. exists EmptyString, EmptyString. by rewrite str_app_nil_r. Qed.

Lemma occurs_app_l (x a b : string) : occurs x a -> occurs x (a +:+ b).
Proof.
  intros (u & v & ->). exists u, (v +:+ b). by rewrite !str_app_assoc.
Qed.

Lemma occurs_app_r (x a b : string) : occurs x b -> occurs x (a +:+ b).
Proof.
  intros (u & v & ->). exists (a +:+ u), v. by rewrite !str_app_assoc.
Qed.

Lemma occurs_cons (x : string) (c : ascii) (b : string) :
  occurs x b -> occurs x (String c b).
Proof. apply (occurs_app_r x (String c EmptyString) b). Qed.

Lemma foldl_join_app (a b : string) (l : list string) :
  foldl (fun acc y => acc +:+ String newline y) (a +:+ b) l
  = a +:+ foldl (fun acc y => acc +:+ String newline y) b l.
Proof.
  revert b. induction l as [|y l IH]; intros b; [done|].
  simpl. by rewrite str_app_assoc, IH.
Qed.

Lemma join_lines_cons (x y : string) (l : list string) :
  Search.join_lines (x :: y :: l) = x +:+ String newline (Search.join_lines (y :: l)).
Proof.
  unfold Search.join_lines. simpl foldl.
  rewrite foldl_join_app. f_equal.
  change (String newline y) with (String newline EmptyString +:+ y).
  by rewrite foldl_join_app.
Qed.

Lemma occurs_join_lines (x : string) (l : list string) :
  x ∈ l -> occurs x (Search.join_lines l).
Proof.
  induction l as [|a l IH]; [by intros ?%elem_of_nil|].
  destruct l as [|b l].
  - intros ->%list_elem_of_singleton. apply occurs_refl.
  - rewrite join_lines_cons. intros [->|H]%elem_of_cons.
    + apply occurs_app_l, occurs_refl.
    + apply occurs_app_r, occurs_cons, IH, H.
Qed.

Lemma occurs_line (x : string) (l : list string) :
  x ∈ l -> occurs (String newline x) (String newline (Search.join_lines l)).
Proof.
  induction l as [|a l IH]; [by intros ?%elem_of_nil|].
  destruct l as [|b l].
  - intros ->%list_elem_of_singleton. apply occurs_refl.
  - rewrite join_lines_cons. intros [->|H]%elem_of_cons.
    + rewrite <- str_app_cons. apply occurs_app_l, occurs_refl.
    + rewrite <- str_app_cons. apply occurs_app_r, IH, H.
Qed.

(** X1: the prompt sent to the model names the query and [top_k], and lists
    every entry of the store on a line [i. identifier: description] whose
    number [i] lies between 1 and the size of the store. *)
Theorem X1_prompt_lists_store (query : string) (d : gmap string string)
    (top_k : Z) :
  occurs query (Search.search_prompt query d top_k) /\
  occurs (pretty top_k) (Search.search_prompt query d top_k) /\
  forall key desc,
    d !! key = Some desc ->
    exists i : Z,
      1 <= i <= Z.of_nat (size d) /\
      occurs (String newline
                (pretty i +:+ ". " +:+ key +:+ ": " +:+ desc))
             (Search.search_prompt query d top_k).
Proof.
  unfold Search.search_prompt. split; [|split].
  - apply occurs_app_r, occurs_app_l, occurs_refl.
  - do 3 apply occurs_app_r. apply occurs_app_l, occurs_refl.
  - intros key desc H. apply elem_of_map_to_list in H.
    apply list_elem_of_lookup in H as [i Hi]. exists (Z.of_nat i + 1).
    split.
    { apply lookup_lt_Some in Hi. rewrite length_map_to_list in Hi. lia. }
    do 10 apply occurs_app_r. apply occurs_app_l.
    unfold Search.descriptions_text. apply occurs_line.
    apply list_elem_of_lookup. exists i. by rewrite list_lookup_imap, Hi.
Qed.

Lemma split_newline_join (s : string) :
  Search.join_lines (Str.split newline s) = s.
Proof.
  induction s as [|c s IH]; [done|]. simpl.
  destruct (Ascii.eqb_spec c newline) as [->|Hc].
  - destruct (split_cons newline s) as (h & t & Hs). rewrite Hs in IH |- *.
    rewrite join_lines_cons, IH. done.
  - destruct (split_cons newline s) as (h & t & Hs). rewrite Hs in IH |- *.
    destruct t as [|y t].
    + simpl in IH |- *. by rewrite IH.
    + rewrite join_lines_cons in IH |- *. rewrite <- IH. done.
Qed.

Lemma split_no_sep_in (c : ascii) (s line : string) :
  line ∈ Str.split c s -> ~ has_char c line.
Proof.
  revert line. induction s as [|a s IH]; intros line; simpl.
  - intros ->%list_elem_of_singleton. apply has_char_nil.
  - destruct (Ascii.eqb_spec a c) as [->|Hc].
    + intros [->|H]%elem_of_cons; [apply has_char_nil|by apply IH].
    + destruct (split_cons c s) as (h & t & Hs). rewrite Hs in IH |- *.
      intros [->|H]%elem_of_cons.
      * intros [?|Hh]%has_char_cons; [done|]. revert Hh. apply IH. by left.
      * apply IH. by right.
Qed.

(** X2: the lines the parser goes through are the stripped reply cut at its
    newlines: there is at least one, none contains a newline, and joined by
    newlines they give the stripped reply back, so no character of it is
    lost or read twice. *)
Theorem X2_reply_lines (d : gmap string string) (response_text : string)
    (top_k : Z) :
  exists lines,
    lines = Str.split newline (Str.strip response_text) /\
    lines <> [] /\
    (forall line, line ∈ lines -> ~ has_char newline line) /\
    Search.join_lines lines = Str.strip response_text /\
    Search.parse_response d response_text top_k
    = Ret (slice_to (omap (line_hit d) lines) top_k).
Proof.
  eexists. split; [done|]. split; [|split; [|split]].
  - by destruct (split_cons newline (Str.strip response_text)) as (h & t & ->).
  - intros line. apply split_no_sep_in.
  - apply split_newline_join.
  - apply parse_response_spec.
Qed.

(** * More on the parsing loop *)

Lemma line_hit_candidate (d : gmap string string) (line : string) :
  is_Some (line_hit d line) -> Search.candidate line = true.
Proof. unfold line_hit. destruct (Search.candidate line); [done|by intros [? ?]]. Qed.

Lemma omap_line_hit_length (d : gmap string string) (lines : list string) :
  (length (omap (line_hit d) lines)
   <= length (List.filter Search.candidate lines))%nat.
Proof.
  induction lines as [|x l IH]; [done|]. simpl.
  destruct (line_hit d x) as [h|] eqn:Hx.
  - rewrite (line_hit_candidate d x) by (by eexists). simpl.
    by apply le_n_S.
  - destruct (Search.candidate x); simpl; [|done]. by apply Nat.le_le_succ_r.
Qed.

Lemma filter_length_le {A : Type} (p : A -> bool) (l : list A) :
  (length (List.filter p l) <= length l)%nat.
Proof. induction l as [|x l IH]; simpl; [done|]. destruct (p x); simpl; lia. Qed.

Lemma slice_to_all {A : Type} (l : list A) (k : Z) :
  Z.of_nat (length l) <= k -> slice_to l k = l.
Proof.
  intros H. rewrite slice_to_nonneg by lia. apply take_ge. lia.
Qed.

(** X3: the number of results is at most the number of reply lines that
    pass the candidate test, hence at most the number of lines; and once
    [top_k] is at least that number, a larger [top_k] returns the same
    results. *)
Theorem X3_results_bounded_by_lines (d : gmap string string)
    (response_text : string) (top_k : Z) :
  exists r,
    Search.parse_response d response_text top_k = Ret r /\
    (length r
     <= length (List.filter Search.candidate
                  (Str.split newline (Str.strip response_text))))%nat /\
    (length r <= length (Str.split newline (Str.strip response_text)))%nat /\
    (Z.of_nat (length (List.filter Search.candidate
                         (Str.split newline (Str.strip response_text))))
     <= top_k ->
     forall k', top_k <= k' ->
       Search.parse_response d response_text k' = Ret r).
Proof.
  rewrite parse_response_spec. eexists. split; [done|].
  pose proof (omap_line_hit_length d (Str.split newline (Str.strip response_text)))
    as Hle.
  pose proof (filter_length_le Search.candidate
                (Str.split newline (Str.strip response_text))) as Hle'.
  assert (Hpre : (length (slice_to (survivors d response_text) top_k)
                  <= length (survivors d response_text))%nat).
  { apply prefix_length, slice_to_prefix. }
  unfold survivors in *. split; [lia|]. split; [lia|].
  intros Hk k' Hk'. rewrite parse_response_spec. unfold survivors.
  rewrite !slice_to_all; [done|lia|lia].
Qed.

Lemma line_hit_mono (d d' : gmap string string) (line : string)
    (h : Search.hit) :
  d ⊆ d' -> line_hit d line = Some h -> line_hit d' line = Some h.
Proof.
  intros Hsub Hh. apply line_hit_spec. apply line_hit_spec in Hh
    as (left & mid & rest & f & desc & n & ? & ? & ? & ? & ? & ? & Hd & ?).
  exists left, mid, rest, f, desc, n. repeat split; try done.
  by eapply lookup_weaken.
Qed.

Lemma omap_sublist_mono {A B : Type} (f g : A -> option B) (l : list A) :
  (forall x y, f x = Some y -> g x = Some y) ->
  omap f l `sublist_of` omap g l.
Proof.
  intros H. induction l as [|x l IH]; [done|]. simpl.
  destruct (f x) as [y|] eqn:Hx.
  - rewrite (H x y Hx). by apply sublist_skip.
  - destruct (g x); [by apply sublist_cons|done].
Qed.

(** X4: enlarging the store never loses a result: when every entry of
    [d] is an entry of [d'], the triples the loop collects for [d] are, in
    order, among those it collects for [d'] from the same lines. *)
Theorem X4_larger_store_keeps_hits (d d' : gmap string string)
    (lines : list string) :
  d ⊆ d' ->
  exists r r',
    Search.parse_lines d lines [] = Ret r /\
    Search.parse_lines d' lines [] = Ret r' /\
    r `sublist_of` r'.
Proof.
  intros Hsub. rewrite !parse_lines_spec. eexists _, _.
  split; [done|]. split; [done|]. simpl.
  apply omap_sublist_mono. intros line h. by apply line_hit_mono.
Qed.

Lemma X4_larger_store_keeps_hits_witness :
  exists r r',
    Search.parse_lines Demo.store ["1. login.png: 87"; "2. cart.png: 60"] []
    = Ret r /\
    Search.parse_lines (<["cart.png" := "a shopping cart"]> Demo.store)
      ["1. login.png: 87"; "2. cart.png: 60"] [] = Ret r' /\
    r `sublist_of` r'.
Proof.
  apply (X4_larger_store_keeps_hits Demo.store
           (<["cart.png" := "a shopping cart"]> Demo.store)).
  apply insert_subseteq. vm_compute. reflexivity.
Defined.

(** * Text around the score *)

Lemma filter_app (p : ascii -> bool) (a b : string) :
  Str.filter p (a +:+ b) = Str.filter p a +:+ Str.filter p b.
Proof.
  induction a as [|c a IH]; [done|]. rewrite str_app_cons. simpl.
  destruct (p c); [by rewrite str_app_cons, IH|done].
Qed.

Lemma filter_none (p : ascii -> bool) (s : string) :
  (forall c, has_char c s -> p c = false) -> Str.filter p s = EmptyString.
Proof.
  induction s as [|c s IH]; intros H; [done|]. simpl.
  rewrite (H c) by (apply has_char_cons; by left).
  apply IH. intros c' Hc'. apply H, has_char_cons. by right.
Qed.

Lemma any_none (p : ascii -> bool) (s : string) :
  (forall c, has_char c s -> p c = false) -> Str.any p s = false.
Proof.
  induction s as [|c s IH]; intros H; [done|]. simpl.
  rewrite (H c) by (apply has_char_cons; by left).
  apply IH. intros c' Hc'. apply H, has_char_cons. by right.
Qed.

Lemma has_char_filter (p : ascii -> bool) (c : ascii) (s : string) :
  has_char c s -> p c = true -> has_char c (Str.filter p s).
Proof.
  induction s as [|a s IH]; intros Hc Hp; [by apply has_char_nil in Hc|].
  simpl. apply has_char_cons in Hc as [->|Hc].
  - rewrite Hp. apply has_char_cons. by left.
  - destruct (p a); [apply has_char_cons; right|]; by apply IH.
Qed.

Lemma candidate_app_junk (line junk : string) :
  (forall c, has_char c junk -> c <> colon /\ Str.isdigit c = false) ->
  Search.candidate (line +:+ junk) = Search.candidate line.
Proof.
  intros Hj. unfold Search.candidate. rewrite any_app.
  rewrite (any_none Str.isdigit junk) by (intros c Hc; by apply Hj).
  rewrite orb_false_r. f_equal.
  apply eq_true_iff_eq. rewrite !contains_spec.
  change (occurs ":" ?s) with (has_char colon s).
  rewrite has_char_app. split; [|by left].
  intros [H|H]; [done|]. by apply Hj in H as [? _].
Qed.

(** Text without digits and without [':'] after a line does not change
    what the line yields. *)
Lemma line_hit_trailing (d : gmap string string) (line junk : string) :
  (forall c, has_char c junk -> c <> colon /\ Str.isdigit c = false) ->
  line_hit d (line +:+ junk) = line_hit d line.
Proof.
  intros Hj. unfold line_hit. rewrite candidate_app_junk by done.
  destruct (Search.candidate line) eqn:Hc; [|done].
  apply candidate_spec in Hc as [Hcolon _].
  destruct (cut_at colon line) as (left & rest0 & -> & Hl & [->|[b ->]]).
  { rewrite str_app_nil_r in Hcolon. done. }
  destruct (cut_at colon b) as (mid & rest & -> & Hm & Hrest).
  rewrite (line_body_shape d left mid rest [] Hl Hm Hrest).
  destruct Hrest as [->|[r ->]].
  - rewrite str_app_nil_r, str_app_assoc, str_app_cons.
    rewrite <- (str_app_nil_r (mid +:+ junk)).
    rewrite (line_body_shape d left (mid +:+ junk) EmptyString []);
      [|done| |by left].
    + rewrite filter_app, (filter_none Str.isdigit junk), str_app_nil_r; [done|].
      intros c Hc. by apply Hj.
    + intros [H|H]%has_char_app; [done|]. by apply Hj in H as [? _].
  - rewrite str_app_assoc, str_app_cons, str_app_assoc, str_app_cons.
    rewrite (line_body_shape d left mid (String colon (r +:+ junk)) []);
      [done|done|done|]. right. by eexists.
Qed.

Lemma lstrip_spaces (ws s : string) :
  (forall c, has_char c ws -> Str.isspace c = true) ->
  Str.lstrip (ws +:+ s) = Str.lstrip s.
Proof.
  induction ws as [|c ws IH]; intros H; [done|].
  rewrite str_app_cons. simpl.
  rewrite (H c) by (apply has_char_cons; by left).
  apply IH. intros c' Hc'. apply H, has_char_cons. by right.
Qed.

Lemma isspace_not_colon (c : ascii) : Str.isspace c = true -> c <> colon.
Proof. by intros H ->. Qed.

(** White space before a line does not change what the line yields. *)
Lemma line_hit_leading (d : gmap string string) (ws line : string) :
  (forall c, has_char c ws -> Str.isspace c = true) ->
  line_hit d (ws +:+ line) = line_hit d line.
Proof.
  intros Hws.
  assert (Hnc : ~ has_char colon ws).
  { intros H. apply Hws in H. done. }
  assert (Hcand : Search.candidate (ws +:+ line) = Search.candidate line).
  { unfold Search.candidate. rewrite any_app.
    rewrite (any_none Str.isdigit ws)
      by (intros c Hc; by apply isspace_not_digit, Hws).
    simpl. f_equal. apply eq_true_iff_eq. rewrite !contains_spec.
    change (occurs ":" ?s) with (has_char colon s).
    rewrite has_char_app. split; [|by right]. by intros [H|H]. }
  unfold line_hit. rewrite Hcand.
  destruct (Search.candidate line) eqn:Hc; [|done].
  apply candidate_spec in Hc as [Hcolon _].
  destruct (cut_at colon line) as (left & rest0 & -> & Hl & [->|[b ->]]).
  { rewrite str_app_nil_r in Hcolon. done. }
  destruct (cut_at colon b) as (mid & rest & -> & Hm & Hrest).
  rewrite (line_body_shape d left mid rest [] Hl Hm Hrest).
  rewrite <- str_app_assoc.
  rewrite (line_body_shape d (ws +:+ left) mid rest []); [|  |done|done].
  - unfold Str.strip. by rewrite lstrip_spaces.
  - by intros [H|H]%has_char_app.
Qed.

Lemma parse_lines_cons_hit (d : gmap string string) (a b : string)
    (more : list string) (acc : list Search.hit) :
  line_hit d a = line_hit d b ->
  Search.parse_lines d (a :: more) acc = Search.parse_lines d (b :: more) acc.
Proof. intros H. rewrite !parse_lines_spec. simpl. by rewrite H. Qed.

(** X5: a reply line yields the same result when white space is put before
    it (indentation) and when text with no digit and no [':'] is put after
    it (a unit, a remark, a carriage return). *)
Theorem X5_surrounding_text_ignored (d : gmap string string)
    (ws line junk : string) (more : list string) (acc : list Search.hit) :
  (forall c, has_char c ws -> Str.isspace c = true) ->
  (forall c, has_char c junk -> c <> colon /\ Str.isdigit c = false) ->
  Search.parse_lines d ((ws +:+ line +:+ junk) :: more) acc
  = Search.parse_lines d (line :: more) acc.
Proof.
  intros Hws Hj. apply parse_lines_cons_hit.
  rewrite line_hit_leading by done. by apply line_hit_trailing.
Qed.

Lemma junk_check (junk : string) :
  Str.contains ":" junk = false -> Str.any Str.isdigit junk = false ->
  forall c, has_char c junk -> c <> colon /\ Str.isdigit c = false.
Proof.
  intros Hc Hd c H. split.
  - intros ->. assert (Str.contains ":" junk = true) by (by apply contains_spec).
    congruence.
  - destruct (Str.isdigit c) eqn:Hdc; [|done].
    assert (Str.any Str.isdigit junk = true); [|congruence].
    apply any_has_digit. by exists c.
Qed.

Lemma spaces_check (ws : string) :
  Str.any (fun c => negb (Str.isspace c)) ws = false ->
  forall c, has_char c ws -> Str.isspace c = true.
Proof.
  induction ws as [|a ws IH]; intros H c Hc; [by apply has_char_nil in Hc|].
  simpl in H. apply orb_false_iff in H as [Ha Hws].
  apply has_char_cons in Hc as [<-|Hc]; [by destruct (Str.isspace a)|].
  by apply IH.
Qed.

Lemma X5_surrounding_text_ignored_witness :
  Search.parse_lines Demo.store
    [("   " +:+ "1. login.png: 87" +:+ "% (high)")] []
  = Search.parse_lines Demo.store ["1. login.png: 87"] [].
Proof.
  apply (X5_surrounding_text_ignored Demo.store "   " "1. login.png: 87"
           "% (high)" [] []).
  - by apply spaces_check.
  - by apply junk_check.
Defined.

(** * How the score is read *)

Lemma int_from_shift (t : string) (acc acc' n : Z) :
  Str.int_from acc t = Ret n ->
  Str.int_from acc' t
  = Ret (n + (acc' - acc) * 10 ^ Z.of_nat (String.length t)).
Proof.
  revert acc acc' n. induction t as [|c t IH]; intros acc acc' n; simpl.
  - intros [= <-]. f_equal. lia.
  - destruct (Str.isdecimal c); [|done]. intros H.
    rewrite (IH _ (10 * acc' + (Z.of_N (Str.code c) - 48)) _ H). f_equal.
    rewrite Nat2Z.inj_succ, Z.pow_succ_r by lia. lia.
Qed.

Lemma int_from_app (s t : string) (acc : Z) :
  Str.int_from acc (s +:+ t)
  = match Str.int_from acc s with
    | Ret a => Str.int_from a t
    | Raise e => Raise e
    end.
Proof.
  revert acc. induction s as [|c s IH]; intros acc; [done|].
  rewrite str_app_cons. simpl. destruct (Str.isdecimal c); [apply IH|done].
Qed.

(** Reading two numerals written one after the other. *)
Lemma int_app (s t : string) (a b : Z) :
  Str.int s = Ret a -> Str.int t = Ret b ->
  Str.int (s +:+ t) = Ret (a * 10 ^ Z.of_nat (String.length t) + b).
Proof.
  intros Hs Ht. destruct s as [|c s]; [done|]. destruct t as [|c' t]; [done|].
  unfold Str.int in *. rewrite str_app_cons.
  rewrite <- str_app_cons, int_from_app, Hs.
  rewrite (int_from_shift _ 0 a b Ht). f_equal. lia.
Qed.

Lemma pretty_no_char (i : Z) (c : ascii) :
  0 <= i -> Str.isdecimal c = false -> ~ has_char c (pretty i).
Proof.
  intros Hi Hc H. destruct (int_chars _ _ (int_pretty i Hi)) as [_ Hall].
  apply Hall in H. congruence.
Qed.

Lemma filter_pretty (i : Z) :
  0 <= i -> Str.filter Str.isdigit (pretty i) = pretty i.
Proof.
  intros Hi. apply filter_all. intros c Hc.
  destruct (int_chars _ _ (int_pretty i Hi)) as [_ Hall].
  by apply isdecimal_isdigit, Hall.
Qed.

(** A numbered line naming a key, with any score part. *)
Lemma line_hit_numbered (d : gmap string string) (i n : Z)
    (f desc mid : string) :
  0 <= i -> d !! f = Some desc ->
  ~ has_char colon f -> Str.rstrip f = f -> f <> EmptyString ->
  ~ has_char colon mid ->
  Str.int (Str.filter Str.isdigit mid) = Ret n ->
  line_hit d (pretty i +:+ ". " +:+ f +:+ String colon mid) = Some (f, desc, n).
Proof.
  intros Hi Hd Hcolon Hstrip Hne Hmid Hn.
  destruct (int_chars _ _ (int_pretty i Hi)) as [Hine Hichars].
  apply line_hit_spec.
  exists (pretty i +:+ ". " +:+ f), mid, EmptyString, f, desc, n.
  split; [by rewrite str_app_nil_r, !str_app_assoc|].
  split.
  { intros [H|[H|H]%has_char_app]%has_char_app; [| |done].
    - by apply (pretty_no_char i colon) in H.
    - by apply (no_char colon ". ") in H. }
  split; [done|]. split; [by left|].
  split; [|done].
  apply (names_ordinal _ (pretty i) f); [|by apply pretty_no_char].
  unfold Str.strip.
  destruct (pretty i) as [|c s] eqn:Hp; [done|].
  assert (Str.isspace c = false) as Hc.
  { destruct (Str.isspace c) eqn:Hs; [|done].
    apply isspace_not_digit in Hs.
    rewrite isdecimal_isdigit in Hs; [done|].
    apply Hichars, has_char_cons. by left. }
  rewrite str_app_cons. simpl. rewrite Hc. rewrite <- str_app_cons.
  rewrite <- str_app_assoc. by apply rstrip_app.
Qed.

(** X6: the digits of the score part are read as one number wherever they
    stand: two numerals separated by text without digits, as in [87/100] or
    [87.5], are read as the first followed by the second, so [87/100] is
    87100 and no fraction, decimal point or range is understood. *)
Theorem X6_score_digits_concatenated (d : gmap string string) (i a b : Z)
    (f desc junk : string) :
  0 <= i -> 0 <= a -> 0 <= b ->
  d !! f = Some desc ->
  ~ has_char colon f -> Str.rstrip f = f -> f <> EmptyString ->
  (forall c, has_char c junk -> c <> colon /\ Str.isdigit c = false) ->
  Search.parse_lines d
    [pretty i +:+ ". " +:+ f +:+ ": " +:+ pretty a +:+ junk +:+ pretty b] []
  = Ret [(f, desc, a * 10 ^ Z.of_nat (String.length (pretty b)) + b)].
Proof.
  intros Hi Ha Hb Hd Hcolon Hstrip Hne Hj.
  rewrite parse_lines_spec. simpl.
  change (": " +:+ ?x) with (String colon (" " +:+ x)).
  rewrite (line_hit_numbered d i
             (a * 10 ^ Z.of_nat (String.length (pretty b)) + b) f desc);
    try done.
  - intros [H|[H|[H|H]%has_char_app]%has_char_app]%has_char_app.
    + by apply (no_char colon " ") in H.
    + by apply (pretty_no_char a colon) in H.
    + by apply Hj in H as [? _].
    + by apply (pretty_no_char b colon) in H.
  - rewrite !filter_app, !filter_pretty by done.
    rewrite (filter_none Str.isdigit junk) by (intros c Hc; by apply Hj).
    rewrite str_app_nil_l. simpl Str.filter. rewrite str_app_nil_l.
    apply int_app; by apply int_pretty.
Qed.

Lemma X6_score_digits_concatenated_witness :
  Search.parse_lines Demo.store
    [pretty 1 +:+ ". " +:+ "login.png" +:+ ": " +:+ pretty 87 +:+ "/"
     +:+ pretty 100] []
  = Ret [("login.png", "a login form",
          87 * 10 ^ Z.of_nat (String.length (pretty 100)) + 100)].
Proof.
  apply (X6_score_digits_concatenated Demo.store 1 87 100 "login.png"
           "a login form" "/"); try done.
  - by apply no_char.
  - by apply junk_check.
Defined.

Lemma int_not_decimal (s : string) (c : ascii) :
  has_char c s -> Str.isdigit c = true -> Str.isdecimal c = false ->
  Str.int (Str.filter Str.isdigit s) = Raise ValueError.
Proof.
  intros Hc Hd Hn. destruct (Str.int _) as [n|e] eqn:Hint.
  - destruct (int_chars _ _ Hint) as [_ Hall].
    rewrite (Hall c) in Hn; [done|]. by apply has_char_filter.
  - by apply int_exn in Hint as ->.
Qed.

(** X7: a score part holding a digit character that [int] does not read
    (a superscript two, three or one) makes the line unreadable: the line is
    dropped and the loop goes on, whatever other digits it holds. *)
Theorem X7_unreadable_digit_drops_line (d : gmap string string)
    (left mid rest : string) (c : ascii) (more : list string)
    (acc : list Search.hit) :
  ~ has_char colon left -> ~ has_char colon mid ->
  (rest = EmptyString \/ exists r, rest = String colon r) ->
  has_char c mid -> Str.isdigit c = true -> Str.isdecimal c = false ->
  Search.parse_lines d ((left +:+ String colon (mid +:+ rest)) :: more) acc
  = Search.parse_lines d more acc.
Proof.
  intros Hl Hm Hrest Hc Hd Hn. simpl.
  rewrite (line_body_shape d left mid rest acc Hl Hm Hrest).
  unfold mbind, res_bind, bind.
  destruct (filename_total (Str.strip left)) as [f ->].
  rewrite (int_not_decimal mid c Hc Hd Hn).
  by destruct (Search.candidate _).
Qed.

Lemma X7_unreadable_digit_drops_line_witness :
  Search.parse_lines Demo.store
    [("login.png" +:+ String colon (String " " (String "8" (String "178" EmptyString))))]
    []
  = Search.parse_lines Demo.store [] [].
Proof.
  apply (X7_unreadable_digit_drops_line Demo.store "login.png"
           (String " " (String "8" (String "178" EmptyString))) EmptyString
           "178"%char [] []); try done.
  - by apply no_char.
  - by apply no_char.
  - by left.
  - exists (String " " (String "8" EmptyString)), EmptyString. done.
Defined.

Lemma slice_to_nil {A : Type} (k : Z) : slice_to (@nil A) k = [].
Proof. unfold slice_to. destruct (0 <=? k); apply take_nil. Qed.

(** X8: [search_screenshots] returns the empty list, and no error, when the
    store is empty, when the model call raises, and when no line of the
    reply has both a [':'] and a digit. *)
Theorem X8_empty_result_cases (client : string -> res string)
    (query : string) (d : gmap string string) (top_k : Z) :
  (d = ∅ -> Search.search_screenshots client query d top_k = Ret []) /\
  (forall e,
     client (Search.search_prompt query d top_k) = Raise e ->
     Search.search_screenshots client query d top_k = Ret []) /\
  (forall text,
     client (Search.search_prompt query d top_k) = Ret text ->
     (forall line, line ∈ Str.split newline (Str.strip text) ->
        ~ (has_char colon line /\ has_digit line)) ->
     Search.search_screenshots client query d top_k = Ret []).
Proof.
  split; [by intros ->|]. split.
  - intros e He. rewrite search_screenshots_spec, He. by destruct (dict_empty d).
  - intros text Ht Hlines. rewrite search_screenshots_spec, Ht.
    destruct (dict_empty d); [done|]. f_equal.
    assert (survivors d text = []) as ->; [|apply slice_to_nil].
    unfold survivors.
    induction (Str.split newline (Str.strip text)) as [|x l IH]; [done|].
    simpl. assert (line_hit d x = None) as ->.
    { unfold line_hit. destruct (Search.candidate x) eqn:Hc; [|done].
      apply candidate_spec in Hc. destruct (Hlines x); [by left|done]. }
    apply IH. intros line Hl. apply Hlines. by right.
Qed.

(** * The web search handler *)



(** * More on ingestion *)

(** X10: a batch run changes no file other than its output file and no
    folder, only adds to the call log, and calls the describer only for
    images found in the folder; when the folder does not exist or holds no
    image it changes nothing at all (the output file is not even
    created). *)
Theorem X10_index_touches_only_output (E : env) (folder out : string)
    (w : world) :
  folders (Index.index_screenshots E folder out w) = folders w /\
  (forall q, q <> out ->
     files (Index.index_screenshots E folder out w) !! q = files w !! q) /\
  (exists new,
     calls (Index.index_screenshots E folder out w) = calls w ++ new /\
     forall x, x ∈ new ->
       exists image_files,
         folders w !! folder = Some image_files /\ x ∈ image_files) /\
  (folders w !! folder = None \/ folders w !! folder = Some [] ->
   Index.index_screenshots E folder out w = w).
Proof.
  assert (Hnil : forall l : list string,
             l = l ++ [] /\ forall x : string, x ∈ @nil string ->
               exists image_files,
                 folders w !! folder = Some image_files /\ x ∈ image_files).
  { intros l. rewrite app_nil_r. split; [done|].
    intros x H. by apply elem_of_nil in H. }
  destruct (folders w !! folder) as [image_files|] eqn:Hf.
  - destruct (decide (image_files = [])) as [->|Hne].
    + rewrite (index_screenshots_none E folder out w Hf).
      split; [done|]. split; [done|]. split; [|done]. exists []. apply Hnil.
    + rewrite (index_screenshots_run E folder out w image_files Hf Hne).
      destruct (index_loop_effect E image_files
                  (Index.load_descriptions E out w) 0%nat w)
        as (d' & n' & new & -> & _ & Hnew & _).
      unfold Index.save_descriptions. simpl.
      split; [done|]. split; [intros q Hq; by apply lookup_insert_ne|].
      split; [|by intros [?|[= ->]]].
      exists new. split; [done|]. intros x Hx. exists image_files.
      split; [done|]. by apply Hnew.
  - assert (Index.index_screenshots E folder out w = w) as ->.
    { unfold Index.index_screenshots. by rewrite Hf. }
    split; [done|]. split; [done|]. split; [|done]. exists []. apply Hnil.
Qed.

(** What a batch adds: the store grows, every entry that was not there is a
    candidate with a non-empty description, the counter grows by the number
    of entries added, and there are no more calls than candidates. *)
Lemma index_loop_growth (E : env) (image_files : list string)
    (d : gmap string string) (n : nat) (w : world) :
  exists d' n' new,
    Index.index_loop E image_files (d, n, w)
    = (d', n', World (files w) (folders w) (calls w ++ new)) /\
    d ⊆ d' /\
    (forall x v, d' !! x = Some v ->
       d !! x = Some v \/
       (d !! x = None /\ x ∈ image_files /\ v <> EmptyString)) /\
    (n' + size d = n + size d')%nat /\
    (length new <= length image_files)%nat.
Proof.
  revert d n w. induction image_files as [|x l IH]; intros d n w.
  - exists d, n, []. unfold Index.index_loop. simpl. rewrite app_nil_r.
    destruct w. split; [done|]. split; [done|]. split; [by left|]. done.
  - rewrite index_loop_cons.
    destruct (index_step_cases E d n w x)
      as [[Hin ->]|[(Hnone & desc & Hne & _ & ->)|(Hnone & _ & ->)]].
    + destruct (IH d n w) as (d' & n' & new & -> & Hsub & Hnew & Hcount & Hlen).
      exists d', n', new. split; [done|]. split; [done|]. split; [|split].
      * intros y v Hy. destruct (Hnew y v Hy) as [?|(? & ? & ?)]; [by left|].
        right. split; [done|]. split; [by right|done].
      * done.
      * simpl. lia.
    + destruct (IH (<[x := desc]> d) (S n)
                   (World (files w) (folders w) (calls w ++ [x])))
        as (d' & n' & new & -> & Hsub & Hnew & Hcount & Hlen). simpl.
      exists d', n', (x :: new). rewrite <- app_assoc.
      split; [done|]. split; [|split; [|split]].
      * etrans; [|exact Hsub]. by apply insert_subseteq.
      * intros y v Hy. destruct (Hnew y v Hy) as [Hy'|(Hy' & ? & ?)].
        -- destruct (decide (x = y)) as [->|Hxy].
           ++ rewrite lookup_insert_eq in Hy'. injection Hy' as <-.
              right. split; [done|]. split; [by left|done].
           ++ rewrite lookup_insert_ne in Hy' by done. by left.
        -- destruct (decide (x = y)) as [->|Hxy].
           ++ by rewrite lookup_insert_eq in Hy'.
           ++ rewrite lookup_insert_ne in Hy' by done.
              right. split; [done|]. split; [by right|done].
      * rewrite map_size_insert_None in Hcount by done. lia.
      * simpl. lia.
    + destruct (IH d n (World (files w) (folders w) (calls w ++ [x])))
        as (d' & n' & new & -> & Hsub & Hnew & Hcount & Hlen). simpl.
      exists d', n', (x :: new). rewrite <- app_assoc.
      split; [done|]. split; [done|]. split; [|split].
      * intros y v Hy. destruct (Hnew y v Hy) as [?|(? & ? & ?)]; [by left|].
        right. split; [done|]. split; [by right|done].
      * done.
      * simpl. lia.
Qed.

(** X11: the number of new images a batch reports ([processed]) is the
    number of entries by which the store grew, so the total it reports is
    the old size plus the new images. *)
Theorem X11_processed_counts_new_entries (E : env) (image_files : list string)
    (d : gmap string string) (w : world) :
  size (Index.index_loop E image_files (d, 0%nat, w)).1.1
  = (size d + (Index.index_loop E image_files (d, 0%nat, w)).1.2)%nat.
Proof.
  destruct (index_loop_growth E image_files d 0%nat w)
    as (d' & n' & new & -> & _ & _ & Hcount & _). simpl. lia.
Qed.

(** X12: a batch only adds: every entry of the store it started from is
    kept as it was, every other entry of the result belongs to a candidate
    and has a non-empty description, and the describer is called at most
    once per candidate listed. *)
Theorem X12_batch_only_adds (E : env) (image_files : list string)
    (d : gmap string string) (n : nat) (w : world) :
  d ⊆ (Index.index_loop E image_files (d, n, w)).1.1 /\
  (forall x v,
     (Index.index_loop E image_files (d, n, w)).1.1 !! x = Some v ->
     d !! x = Some v \/
     (d !! x = None /\ x ∈ image_files /\ v <> EmptyString)) /\
  (length (calls (Index.index_loop E image_files (d, n, w)).2)
   <= length (calls w) + length image_files)%nat.
Proof.
  destruct (index_loop_growth E image_files d n w)
    as (d' & n' & new & -> & Hsub & Hnew & _ & Hlen). simpl.
  split; [done|]. split; [done|]. rewrite length_app. lia.
Qed.

Lemma index_loop_all_succeed (E : env) (image_files : list string)
    (d : gmap string string) (n : nat) (w : world) :
  (forall k x, exists s, vision E k x = Ret s /\ s <> EmptyString) ->
  exists d' n' new,
    Index.index_loop E image_files (d, n, w)
    = (d', n', World (files w) (folders w) (calls w ++ new)) /\
    (forall x, x ∈ image_files -> is_Some (d' !! x)) /\
    NoDup new /\
    (forall x, x ∈ new -> d !! x = None).
Proof.
  intros Hv. revert d n w. induction image_files as [|x l IH]; intros d n w.
  - exists d, n, []. unfold Index.index_loop. simpl. rewrite app_nil_r.
    destruct w. split; [done|]. split; [by intros x ?%elem_of_nil|].
    split; [constructor|by intros x ?%elem_of_nil].
  - rewrite index_loop_cons.
    destruct (index_step_cases E d n w x)
      as [[Hin ->]|[(Hnone & desc & Hne & _ & ->)|(Hnone & Hfail & _)]].
    + destruct (IH d n w) as (d' & n' & new & Heq & Hall & Hnd & Hnew).
      destruct (index_loop_effect E l d n w)
        as (d2 & n2 & new2 & Heq2 & Hkeep & _).
      exists d', n', new. split; [done|]. split; [|done].
      intros y [->|Hy]%elem_of_cons; [|by apply Hall].
      destruct Hin as [v Hv']. rewrite Heq in Heq2.
      injection Heq2 as <- _ _. exists v. by apply Hkeep.
    + destruct (IH (<[x := desc]> d) (S n)
                   (World (files w) (folders w) (calls w ++ [x])))
        as (d' & n' & new & Heq & Hall & Hnd & Hnew).
      destruct (index_loop_effect E l (<[x := desc]> d) (S n)
                  (World (files w) (folders w) (calls w ++ [x])))
        as (d2 & n2 & new2 & Heq2 & Hkeep & _).
      rewrite Heq in Heq2. injection Heq2 as <- _ _.
      rewrite Heq. simpl. exists d', n', (x :: new). rewrite <- app_assoc.
      split; [done|]. split; [|split].
      * intros y [->|Hy]%elem_of_cons; [|by apply Hall].
        exists desc. apply Hkeep. apply lookup_insert_eq.
      * constructor; [|done]. intros Hx. apply Hnew in Hx.
        by rewrite lookup_insert_eq in Hx.
      * intros y [->|Hy]%elem_of_cons; [done|].
        apply Hnew in Hy. destruct (decide (x = y)) as [->|Hxy].
        -- by rewrite lookup_insert_eq in Hy.
        -- by rewrite lookup_insert_ne in Hy.
    + exfalso. unfold Index.get_image_description in Hfail.
      destruct (Hv (length (calls w)) x) as (s & Hs & Hne).
      rewrite Hs in Hfail. simpl in Hfail. done.
Qed.

(** X13: when every vision call succeeds with a non-empty description, one
    batch leaves every candidate with an entry, and calls the describer
    exactly once for each distinct candidate that was not a key (never twice
    for a path listed twice, never for a key). *)
Theorem X13_batch_indexes_all_on_success (E : env)
    (image_files : list string) (d : gmap string string) (n : nat)
    (w : world) :
  (forall k x, exists s, vision E k x = Ret s /\ s <> EmptyString) ->
  (forall x, x ∈ image_files ->
     is_Some ((Index.index_loop E image_files (d, n, w)).1.1 !! x)) /\
  exists new,
    calls (Index.index_loop E image_files (d, n, w)).2 = calls w ++ new /\
    NoDup new /\
    forall x, x ∈ new <-> x ∈ image_files /\ d !! x = None.
Proof.
  intros Hv.
  destruct (index_loop_all_succeed E image_files d n w Hv)
    as (d' & n' & new & Heq & Hall & Hnd & Hnew).
  destruct (index_loop_effect E image_files d n w)
    as (d2 & n2 & new2 & Heq2 & Hkeep & Hnew2 & Hmiss).
  rewrite Heq in Heq2 |- *. injection Heq2 as <- _ Hn. simpl.
  apply app_inv_head in Hn as <-.
  split; [done|]. exists new. split; [done|]. split; [done|].
  intros x. split; [by apply Hnew2|].
  intros [Hx Hd]. destruct (decide (x ∈ new)) as [|Hnot]; [done|].
  exfalso. clear Hmiss Hnew2 Hkeep Hall Hnd Hnew.
  revert d n w new Heq Hd Hnot.
  induction image_files as [|y l IH]; intros d n w new Heq Hd Hnot;
    [by apply elem_of_nil in Hx|].
  rewrite index_loop_cons in Heq.
  destruct (index_step_cases E d n w y)
    as [[Hin Hs]|[(Hnone & desc & Hne & _ & Hs)|(Hnone & Hfail & _)]].
  - rewrite Hs in Heq. apply elem_of_cons in Hx as [->|Hx].
    + destruct Hin as [v Hv']. congruence.
    + by apply (IH Hx d n w new).
  - rewrite Hs in Heq.
    destruct (index_loop_effect E l (<[y := desc]> d) (S n)
                (World (files w) (folders w) (calls w ++ [y])))
      as (d3 & n3 & new3 & Heq3 & _).
    rewrite Heq in Heq3. injection Heq3 as _ _ Hc. simpl in Hc.
    rewrite <- app_assoc in Hc. apply app_inv_head in Hc as ->.
    apply elem_of_cons in Hx as [->|Hx]; [apply Hnot; by left|].
    destruct (decide (y = x)) as [->|Hyx]; [apply Hnot; by left|].
    apply (IH Hx (<[y := desc]> d) (S n)
             (World (files w) (folders w) (calls w ++ [y])) new3).
    + rewrite Heq. simpl. by rewrite <- app_assoc.
    + by rewrite lookup_insert_ne.
    + intros H. apply Hnot. by right.
  - unfold Index.get_image_description in Hfail.
    destruct (Hv (length (calls w)) y) as (s & Hs & Hne).
    rewrite Hs in Hfail. simpl in Hfail. done.
Qed.

Lemma X13_batch_indexes_all_on_success_witness :
  (forall x, x ∈ ["shots/a.png"; "shots/b.png"; "shots/a.png"] ->
     is_Some ((Index.index_loop (Demo.E Demo.described)
                 ["shots/a.png"; "shots/b.png"; "shots/a.png"]
                 (Demo.store, 0%nat, Demo.empty_world)).1.1 !! x)) /\
  exists new,
    calls (Index.index_loop (Demo.E Demo.described)
             ["shots/a.png"; "shots/b.png"; "shots/a.png"]
             (Demo.store, 0%nat, Demo.empty_world)).2
    = calls Demo.empty_world ++ new /\
    NoDup new /\
    forall x, x ∈ new <->
      x ∈ ["shots/a.png"; "shots/b.png"; "shots/a.png"] /\
      Demo.store !! x = None.
Proof.
  apply (X13_batch_indexes_all_on_success (Demo.E Demo.described)
           ["shots/a.png"; "shots/b.png"; "shots/a.png"] Demo.store 0%nat
           Demo.empty_world).
  intros k x. exists "a settings dialog"%string. split; done.
Defined.

(** X14: an index file that [json.load] rejects is treated as an empty
    index and then overwritten: after a batch over a folder with images the
    file holds the dump of a store whose keys are all candidates of this
    run, so whatever the unreadable file held is gone. *)
Theorem X14_unreadable_index_replaced (E : env) (folder out content : string)
    (w : world) (image_files : list string) :
  files w !! out = Some content -> json_load E content = None ->
  folders w !! folder = Some image_files -> image_files <> [] ->
  Index.load_descriptions E out w = ∅ /\
  exists d',
    files (Index.index_screenshots E folder out w)
    = <[out := json_dump E d']> (files w) /\
    store_ok d' /\
    forall k, is_Some (d' !! k) -> k ∈ image_files.
Proof.
  intros Hfile Hbad Hfolder Hne.
  assert (Hload : Index.load_descriptions E out w = ∅).
  { unfold Index.load_descriptions. by rewrite Hfile, Hbad. }
  split; [done|].
  rewrite (index_screenshots_run E folder out w image_files Hfolder Hne).
  rewrite Hload.
  destruct (index_loop_growth E image_files ∅ 0%nat w)
    as (d' & n' & new & -> & _ & Hnew & _). simpl.
  exists d'. split; [done|]. split.
  - intros k v Hk. destruct (Hnew k v Hk) as [Hk'|(_ & _ & ?)]; [|done].
    by rewrite lookup_empty in Hk'.
  - intros k [v Hk]. destruct (Hnew k v Hk) as [Hk'|(_ & ? & _)]; [|done].
    by rewrite lookup_empty in Hk'.
Qed.

Lemma X14_unreadable_index_replaced_witness :
  Index.load_descriptions (Demo.E Demo.described) "index.json"
    (World {[ "index.json" := "not json" ]}
           {[ "shots" := ["shots/a.png"] ]} []) = ∅ /\
  exists d',
    files (Index.index_screenshots (Demo.E Demo.described) "shots" "index.json"
             (World {[ "index.json" := "not json" ]}
                    {[ "shots" := ["shots/a.png"] ]} []))
    = <[ "index.json" := json_dump (Demo.E Demo.described) d' ]>
        (files (World {[ "index.json" := "not json" ]}
                      {[ "shots" := ["shots/a.png"] ]} [])) /\
    store_ok d' /\
    forall k, is_Some (d' !! k) -> k ∈ ["shots/a.png"].
Proof.
  apply (X14_unreadable_index_replaced (Demo.E Demo.described) "shots"
           "index.json" "not json"
           (World {[ "index.json" := "not json" ]}
                  {[ "shots" := ["shots/a.png"] ]} [])
           ["shots/a.png"]).
  - vm_compute. reflexivity.
  - vm_compute. reflexivity.
  - vm_compute. reflexivity.
  - done.
Defined.

(** X15: with a [json] that reads back what it writes,
    [process_single_image] returns [True] exactly when the image is a key of
    the persisted store afterwards; when it returns [False] no file has
    changed; and no other key of the persisted store changes in either
    case. *)
Theorem X15_single_image_result (E : env) (p file : string) (w : world) :
  codec_ok E ->
  ((Index.process_single_image E p file w).1 = true <->
   is_Some (Index.load_descriptions E file
              (Index.process_single_image E p file w).2 !! p)) /\
  ((Index.process_single_image E p file w).1 = false ->
   files (Index.process_single_image E p file w).2 = files w) /\
  (forall k, k <> p ->
     Index.load_descriptions E file (Index.process_single_image E p file w).2
       !! k
     = Index.load_descriptions E file w !! k).
Proof.
  intros Hok. unfold Index.process_single_image.
  destruct (dict_in p (Index.load_descriptions E file w)) eqn:Hin.
  - simpl. split; [|done]. split; [|done]. intros _.
    by apply bool_decide_eq_true in Hin.
  - apply dict_in_false in Hin.
    pose proof (get_image_description_world E p w) as Hw.
    destruct (Index.get_image_description E p w) as [desc w']. simpl in Hw.
    subst w'. destruct (truthy desc) eqn:Ht; simpl.
    + rewrite load_save by apply Hok. split; [|split; [done|]].
      * split; [|done]. intros _. rewrite lookup_insert_eq. by eexists.
      * intros k Hk. by rewrite lookup_insert_ne.
    + assert (Hsame : Index.load_descriptions E file
                        (World (files w) (folders w) (calls w ++ [p]))
                      = Index.load_descriptions E file w) by done.
      rewrite Hsame, Hin. split; [|done]. split; [done|]. by intros [? ?].
Qed.

Lemma X15_single_image_result_witness :
  (Index.process_single_image (Demo.E Demo.described) "shots/a.png"
     "index.json" Demo.one_image).1 = true <->
  is_Some (Index.load_descriptions (Demo.E Demo.described) "index.json"
             (Index.process_single_image (Demo.E Demo.described) "shots/a.png"
                "index.json" Demo.one_image).2 !! "shots/a.png").
Proof.
  destruct (X15_single_image_result (Demo.E Demo.described) "shots/a.png"
              "index.json" Demo.one_image) as [H _].
  - apply demo_codec_ok.
  - exact H.
Defined.

(** * More on uploads *)

(** One iteration of the upload loop, by cases: the file is refused, is
    skipped because its path exists, is saved and described, or is saved
    without a description. *)
Lemma upload_step_cases (E : env) (results : list App.upload_result)
    (d : gmap string string) (present : gset string) (w : world)
    (name : string) :
  let path := App.path_join App.UPLOAD_FOLDER (secure_filename E name) in
  (truthy name && App.allowed_file E name = false /\
   App.upload_step E (results, d, present, w) name
   = (results ++ [App.UploadResult name "error" "Invalid file type"],
      d, present, w)) \/
  (truthy name && App.allowed_file E name = true /\ path ∈ present /\
   App.upload_step E (results, d, present, w) name
   = (results ++ [App.UploadResult (secure_filename E name) "skipped"
                    "File already exists"],
      d, present, w)) \/
  (truthy name && App.allowed_file E name = true /\ (path ∉ present) /\
   exists desc, desc <> EmptyString /\
     App.upload_step E (results, d, present, w) name
     = (results ++ [App.UploadResult (secure_filename E name) "success"
                      "File uploaded and processed"],
        <[path := desc]> d, {[ path ]} ∪ present,
        World (files w) (folders w) (calls w ++ [path]))) \/
  (truthy name && App.allowed_file E name = true /\ (path ∉ present) /\
   App.upload_step E (results, d, present, w) name
   = (results ++ [App.UploadResult (secure_filename E name) "error"
                    "Failed to process image"],
      d, {[ path ]} ∪ present,
      World (files w) (folders w) (calls w ++ [path]))).
Proof.
  intros path. unfold App.upload_step. fold path.
  destruct (truthy name && App.allowed_file E name); [|by left].
  right. destruct (bool_decide (path ∈ present)) eqn:Hp.
  - left. apply bool_decide_eq_true in Hp. done.
  - right. apply bool_decide_eq_false in Hp.
    pose proof (get_image_description_world E path w) as Hw.
    destruct (Index.get_image_description E path w) as [desc w'].
    simpl in Hw. subst w'. destruct (truthy desc) eqn:Ht.
    + left. split; [done|]. split; [done|]. exists desc.
      split; [by apply truthy_spec|done].
    + right. done.
Qed.

Lemma upload_loop_effect (E : env) (names : list string)
    (results : list App.upload_result) (d : gmap string string)
    (present : gset string) (w : world) :
  exists rs d' present' new,
    foldl (App.upload_step E) (results, d, present, w) names
    = (results ++ rs, d', present',
       World (files w) (folders w) (calls w ++ new)) /\
    Forall2 (status_of E) names rs /\
    present ⊆ present' /\
    NoDup new /\
    (forall x, x ∈ new -> (x ∉ present) /\ x ∈ present') /\
    (forall k, k ∉ new -> d' !! k = d !! k) /\
    (length (List.filter App.is_success rs) <= length new)%nat /\
    ((forall name, name ∈ names -> App.allowed_file E name = false) ->
     d' = d /\ new = [] /\ present' = present).
Proof.
  revert results d present w.
  induction names as [|name l IH]; intros results d present w.
  - exists [], d, present, []. simpl. rewrite !app_nil_r. destruct w.
    split; [done|]. split; [constructor|]. split; [done|].
    split; [constructor|]. split; [by intros x ?%elem_of_nil|]. done.
  - change (foldl (App.upload_step E) (results, d, present, w) (name :: l))
      with (foldl (App.upload_step E)
              (App.upload_step E (results, d, present, w) name) l).
    destruct (upload_step_cases E results d present w name)
      as [[Hbad ->]|[(Hok & Hin & ->)|[(Hok & Hnin & desc & Hne & ->)
                                      |(Hok & Hnin & ->)]]].
    + destruct (IH (results ++ [App.UploadResult name "error" "Invalid file type"])
                   d present w)
        as (rs & d' & present' & new & -> & Hrs & Hsub & Hnd & Hnew & Hd & Hcnt & Hinv).
      exists (App.UploadResult name "error" "Invalid file type" :: rs),
             d', present', new.
      rewrite <- app_assoc. split; [done|].
      split; [constructor; [by left|done]|].
      split; [done|]. split; [done|]. split; [done|]. split; [done|].
      split; [done|]. intros Hall. apply Hinv. intros n Hn. apply Hall. by right.
    + destruct (IH (results ++ [App.UploadResult (secure_filename E name)
                                  "skipped" "File already exists"])
                   d present w)
        as (rs & d' & present' & new & -> & Hrs & Hsub & Hnd & Hnew & Hd & Hcnt & Hinv).
      exists (App.UploadResult (secure_filename E name) "skipped"
                "File already exists" :: rs), d', present', new.
      rewrite <- app_assoc. split; [done|].
      split; [constructor; [right; split; [done|by left]|done]|].
      split; [done|]. split; [done|]. split; [done|]. split; [done|].
      split; [done|]. intros Hall.
      rewrite (Hall name) in Hok by (by left). by rewrite andb_false_r in Hok.
    + set (path := App.path_join App.UPLOAD_FOLDER (secure_filename E name)) in *.
      destruct (IH (results ++ [App.UploadResult (secure_filename E name)
                                  "success" "File uploaded and processed"])
                   (<[path := desc]> d) ({[ path ]} ∪ present)
                   (World (files w) (folders w) (calls w ++ [path])))
        as (rs & d' & present' & new & -> & Hrs & Hsub & Hnd & Hnew & Hd & Hcnt & Hinv).
      exists (App.UploadResult (secure_filename E name) "success"
                "File uploaded and processed" :: rs), d', present',
             (path :: new).
      simpl. rewrite <- !app_assoc. split; [done|].
      split; [constructor; [right; split; [done|right; by left]|done]|].
      split; [set_solver|].
      split; [constructor; [|done]; intros Hx; apply Hnew in Hx; set_solver|].
      split.
      { intros x [->|Hx]%elem_of_cons; [set_solver|].
        apply Hnew in Hx. set_solver. }
      split.
      { intros k Hk. rewrite Hd by set_solver.
        apply lookup_insert_ne. set_solver. }
      split; [simpl; lia|]. intros Hall.
      rewrite (Hall name) in Hok by (by left). by rewrite andb_false_r in Hok.
    + set (path := App.path_join App.UPLOAD_FOLDER (secure_filename E name)) in *.
      destruct (IH (results ++ [App.UploadResult (secure_filename E name)
                                  "error" "Failed to process image"])
                   d ({[ path ]} ∪ present)
                   (World (files w) (folders w) (calls w ++ [path])))
        as (rs & d' & present' & new & -> & Hrs & Hsub & Hnd & Hnew & Hd & Hcnt & Hinv).
      exists (App.UploadResult (secure_filename E name) "error"
                "Failed to process image" :: rs), d', present', (path :: new).
      simpl. rewrite <- !app_assoc. split; [done|].
      split; [constructor; [right; split; [done|right; by right]|done]|].
      split; [set_solver|].
      split; [constructor; [|done]; intros Hx; apply Hnew in Hx; set_solver|].
      split.
      { intros x [->|Hx]%elem_of_cons; [set_solver|].
        apply Hnew in Hx. set_solver. }
      split; [intros k Hk; apply Hd; set_solver|].
      split; [simpl; lia|]. intros Hall.
      rewrite (Hall name) in Hok by (by left). by rewrite andb_false_r in Hok.
Qed.


(** X17: uploading an accepted file a second time is always skipped: the
    first attempt saves the file whether or not its description succeeds, so
    the second finds the path, adds a [skipped] entry, makes no describer
    call and changes neither the store nor the saved files. *)
Theorem X17_second_upload_skipped (E : env) (results : list App.upload_result)
    (d : gmap string string) (present : gset string) (w : world)
    (name : string) :
  truthy name && App.allowed_file E name = true ->
  App.upload_step E (App.upload_step E (results, d, present, w) name) name
  = (((App.upload_step E (results, d, present, w) name).1.1.1)
       ++ [App.UploadResult (secure_filename E name) "skipped"
             "File already exists"],
     (App.upload_step E (results, d, present, w) name).1.1.2,
     (App.upload_step E (results, d, present, w) name).1.2,
     (App.upload_step E (results, d, present, w) name).2).
Proof.
  intros Hok.
  destruct (upload_step_cases E results d present w name)
    as [[Hbad _]|[(_ & Hin & ->)|[(_ & Hnin & desc & Hne & ->)
                                 |(_ & Hnin & ->)]]];
    [congruence| | |]; cbn [fst snd].
  - match goal with
    | |- App.upload_step E (?r, ?d1, ?p1, ?w1) name = _ =>
        destruct (upload_step_cases E r d1 p1 w1 name)
          as [[Hbad _]|[(_ & _ & ->)|[(_ & Hn & _)|(_ & Hn & _)]]]
    end; [congruence|done|done|done].
  - match goal with
    | |- App.upload_step E (?r, ?d1, ?p1, ?w1) name = _ =>
        destruct (upload_step_cases E r d1 p1 w1 name)
          as [[Hbad _]|[(_ & _ & ->)|[(_ & Hn & _)|(_ & Hn & _)]]]
    end; [congruence|done|set_solver|set_solver].
  - match goal with
    | |- App.upload_step E (?r, ?d1, ?p1, ?w1) name = _ =>
        destruct (upload_step_cases E r d1 p1 w1 name)
          as [[Hbad _]|[(_ & _ & ->)|[(_ & Hn & _)|(_ & Hn & _)]]]
    end; [congruence|done|set_solver|set_solver].
Qed.

Lemma X17_second_upload_skipped_witness :
  App.upload_step (DemoWeb.E Demo.failing)
    (App.upload_step (DemoWeb.E Demo.failing) ([], ∅, ∅, Demo.empty_world)
       "shot1.png") "shot1.png"
  = (((App.upload_step (DemoWeb.E Demo.failing) ([], ∅, ∅, Demo.empty_world)
         "shot1.png").1.1.1)
       ++ [App.UploadResult (secure_filename (DemoWeb.E Demo.failing) "shot1.png")
             "skipped" "File already exists"],
     (App.upload_step (DemoWeb.E Demo.failing) ([], ∅, ∅, Demo.empty_world)
        "shot1.png").1.1.2,
     (App.upload_step (DemoWeb.E Demo.failing) ([], ∅, ∅, Demo.empty_world)
        "shot1.png").1.2,
     (App.upload_step (DemoWeb.E Demo.failing) ([], ∅, ∅, Demo.empty_world)
        "shot1.png").2).
Proof.
  apply (X17_second_upload_skipped (DemoWeb.E Demo.failing) [] ∅ ∅
           Demo.empty_world "shot1.png").
  vm_compute. reflexivity.
Defined.

(** X18: during an upload request the describer is called only for files
    this request saved: each call is for a path that did not exist before
    and exists afterwards, no path is described twice, no saved path is
    ever removed, and files of a refused type cause no call and no save. *)
Theorem X18_upload_describes_saved_files (E : env) (names : list string)
    (results : list App.upload_result) (d : gmap string string)
    (present : gset string) (w : world) :
  exists new,
    calls (foldl (App.upload_step E) (results, d, present, w) names).2
    = calls w ++ new /\
    NoDup new /\
    (forall x, x ∈ new ->
       (x ∉ present) /\
       x ∈ (foldl (App.upload_step E) (results, d, present, w) names).1.2) /\
    present ⊆ (foldl (App.upload_step E) (results, d, present, w) names).1.2 /\
    ((forall name, name ∈ names -> App.allowed_file E name = false) ->
     new = [] /\
     (foldl (App.upload_step E) (results, d, present, w) names).1.2 = present).
Proof.
  destruct (upload_loop_effect E names results d present w)
    as (rs & d' & present' & new & -> & _ & Hsub & Hnd & Hnew & _ & _ & Hinv).
  simpl. exists new. split; [done|]. split; [done|]. split; [done|].
  split; [done|]. intros Hall. by destruct (Hinv Hall) as (_ & ? & ?).
Qed.

(** X19: an upload request that names a first file always rewrites the
    index file, with the dump of a store that differs from the loaded one
    only at paths this request saved; when every file is of a refused type
    it rewrites the index with the loaded store itself (so an unreadable
    index becomes the empty index), makes no call and saves nothing. *)
Theorem X19_upload_rewrites_index (E : env) (first : string)
    (l : list string) (present : gset string) (w : world) :
  truthy first = true ->
  exists d',
    files (App.upload_files E (Some (first :: l)) present w).2
    = <[App.DESCRIPTIONS_FILE := json_dump E d']> (files w) /\
    (forall k,
       d' !! k <> Index.load_descriptions E App.DESCRIPTIONS_FILE w !! k ->
       (k ∉ present) /\
       k ∈ (App.upload_files E (Some (first :: l)) present w).1.2) /\
    ((forall name, name ∈ first :: l -> App.allowed_file E name = false) ->
     d' = Index.load_descriptions E App.DESCRIPTIONS_FILE w /\
     calls (App.upload_files E (Some (first :: l)) present w).2 = calls w /\
     (App.upload_files E (Some (first :: l)) present w).1.2 = present).
Proof.
  intros Hf. unfold App.upload_files. rewrite Hf. simpl negb. cbv iota.
  destruct (upload_loop_effect E (first :: l) []
              (Index.load_descriptions E App.DESCRIPTIONS_FILE w) present w)
    as (rs & d' & present' & new & Heq & _ & _ & _ & Hnew & Hd & _ & Hinv).
  rewrite Heq. simpl. exists d'. split; [done|]. split.
  - intros k Hk. destruct (decide (k ∈ new)) as [Hin|Hnin]; [by apply Hnew|].
    by rewrite Hd in Hk.
  - intros Hall. destruct (Hinv Hall) as (-> & -> & ->).
    by rewrite app_nil_r.
Qed.

Lemma X19_upload_rewrites_index_witness :
  exists d',
    files (App.upload_files (DemoWeb.E Demo.described) (Some ["notes.txt"]) ∅
             Demo.stale_world).2
    = <[App.DESCRIPTIONS_FILE := json_dump (DemoWeb.E Demo.described) d']>
        (files Demo.stale_world) /\
    (forall k,
       d' !! k
       <> Index.load_descriptions (DemoWeb.E Demo.described)
            App.DESCRIPTIONS_FILE Demo.stale_world !! k ->
       (k ∉ (∅ : gset string)) /\
       k ∈ (App.upload_files (DemoWeb.E Demo.described) (Some ["notes.txt"]) ∅
              Demo.stale_world).1.2) /\
    ((forall name, name ∈ ["notes.txt"] ->
        App.allowed_file (DemoWeb.E Demo.described) name = false) ->
     d' = Index.load_descriptions (DemoWeb.E Demo.described)
            App.DESCRIPTIONS_FILE Demo.stale_world /\
     calls (App.upload_files (DemoWeb.E Demo.described) (Some ["notes.txt"]) ∅
              Demo.stale_world).2 = calls Demo.stale_world /\
     (App.upload_files (DemoWeb.E Demo.described) (Some ["notes.txt"]) ∅
        Demo.stale_world).1.2 = ∅).
Proof.
  apply (X19_upload_rewrites_index (DemoWeb.E Demo.described) "notes.txt" [] ∅
           Demo.stale_world).
  reflexivity.
Defined.
